(** * gomcp: the provider protocol client and the dispatch orchestrator

    A shallow embedding of the Go sources of the bridge
    (bridge/bridge.go, bridge/mcpclient.go, tools/database.go,
    types/errors.go) and the properties stated about them.

    Go strings are byte strings; they are modelled by [string], whose
    characters are the bytes.  Maps are stdpp's [gmap].  Everything that
    lives outside the repository (the model endpoint, the provider
    processes, the database engine) is an explicit environment that the
    operations receive as an argument, and every effect is recorded in an
    explicit state. *)

From Stdlib Require Import ZArith Ascii String Lia Bool.
From stdpp Require Import base list gmap strings sorting pretty.

Local Open Scope Z_scope.

#[local] Set Warnings "-register-all".

(** ** Package unicode/utf8 (Go standard library)

    [range] over a string and the conversion [string(r)] go through the
    UTF-8 codec; it is written here with the arithmetic of the encoding
    tables rather than with masks and shifts. *)
Module utf8.

Definition rune := Z.

Definition RuneError : rune := 0xFFFD.
Definition RuneSelf : Z := 0x80.
Definition MaxRune : rune := 0x10FFFF.

(** [s[i]] as a number and [byte(z)] as a character. *)
Definition byteZ (b : ascii) : Z := Z.of_N (N_of_ascii b).
Definition mkByte (z : Z) : ascii := ascii_of_N (Z.to_N z).

(** Continuation bytes lie in [locb, hicb]. *)
Definition locb : Z := 0x80.
Definition hicb : Z := 0xBF.

Definition between (lo x hi : Z) : bool := (lo <=? x) && (x <=? hi).

(** The table [first] together with [acceptRanges]: for a leading byte,
    the length of the sequence and the range accepted for the second
    byte; [None] for a byte that cannot start a sequence. *)
Definition first (c0 : Z) : option (nat * Z * Z) :=
  if between 0xC2 c0 0xDF then Some (2%nat, locb, hicb)
  else if c0 =? 0xE0 then Some (3%nat, 0xA0, hicb)
  else if between 0xE1 c0 0xEC then Some (3%nat, locb, hicb)
  else if c0 =? 0xED then Some (3%nat, locb, 0x9F)
  else if between 0xEE c0 0xEF then Some (3%nat, locb, hicb)
  else if c0 =? 0xF0 then Some (4%nat, 0x90, hicb)
  else if between 0xF1 c0 0xF3 then Some (4%nat, locb, hicb)
  else if c0 =? 0xF4 then Some (4%nat, locb, 0x8F)
  else None.

(** utf8.DecodeRuneInString: the first rune of [s] and its width in
    bytes; [(RuneError, 0)] on the empty string and [(RuneError, 1)] on
    an invalid or truncated sequence. *)
Definition DecodeRuneInString (s : string) : rune * nat :=
  match s with
  | EmptyString => (RuneError, 0%nat)
  | String b0 s1 =>
    let c0 := byteZ b0 in
    if c0 <? RuneSelf then (c0, 1%nat)
    else
      match first c0 with
      | None => (RuneError, 1%nat)
      | Some (sz, lo, hi) =>
        match s1 with
        | EmptyString => (RuneError, 1%nat)
        | String b1 s2 =>
          let c1 := byteZ b1 in
          if negb (between lo c1 hi) then (RuneError, 1%nat)
          else if (sz <=? 2)%nat then
            (c0 mod 32 * 64 + c1 mod 64, 2%nat)
          else
            match s2 with
            | EmptyString => (RuneError, 1%nat)
            | String b2 s3 =>
              let c2 := byteZ b2 in
              if negb (between locb c2 hicb) then (RuneError, 1%nat)
              else if (sz <=? 3)%nat then
                (c0 mod 16 * 4096 + c1 mod 64 * 64 + c2 mod 64, 3%nat)
              else
                match s3 with
                | EmptyString => (RuneError, 1%nat)
                | String b3 _ =>
                  let c3 := byteZ b3 in
                  if negb (between locb c3 hicb) then (RuneError, 1%nat)
                  else
                    (c0 mod 8 * 262144 + c1 mod 64 * 4096
                     + c2 mod 64 * 64 + c3 mod 64, 4%nat)
                end
            end
        end
      end
  end.

(** A Unicode scalar value: in range and not a surrogate. *)
Definition ValidRune (r : rune) : bool :=
  between 0 r 0xD7FF || between 0xE000 r MaxRune.

(** [string(r)] for a rune [r] (utf8.AppendRune): the UTF-8 encoding of
    [r], or that of U+FFFD when [r] is not a scalar value. *)
Definition EncodeRune (r : rune) : string :=
  if between 0 r 0x7F then String (mkByte r) EmptyString
  else if between 0x80 r 0x7FF then
    String (mkByte (0xC0 + r / 64)) (String (mkByte (0x80 + r mod 64)) EmptyString)
  else if negb (ValidRune r) then
    String (mkByte 0xEF) (String (mkByte 0xBF) (String (mkByte 0xBD) EmptyString))
  else if r <=? 0xFFFF then
    String (mkByte (0xE0 + r / 4096))
      (String (mkByte (0x80 + (r / 64) mod 64))
         (String (mkByte (0x80 + r mod 64)) EmptyString))
  else
    String (mkByte (0xF0 + r / 262144))
      (String (mkByte (0x80 + (r / 4096) mod 64))
         (String (mkByte (0x80 + (r / 64) mod 64))
            (String (mkByte (0x80 + r mod 64)) EmptyString))).

End utf8.

(** [s[n:]] and [s[:n]] for [n <= len(s)]. *)
Fixpoint string_drop (n : nat) (s : string) : string :=
  match n, s with
  | O, _ => s
  | S n', String _ s' => string_drop n' s'
  | S _, EmptyString => EmptyString
  end.

Fixpoint string_take (n : nat) (s : string) : string :=
  match n, s with
  | O, _ => EmptyString
  | S n', String c s' => String c (string_take n' s')
  | S _, EmptyString => EmptyString
  end.

(** ** Tool-name sanitisation (bridge/bridge.go, llm/ollama.go)

    The three copies of [sanitizeToolName] in the sources are the same
    text. *)

(** One iteration of [for _, r := range name]. *)
Definition sanitize_step (r : utf8.rune) (sanitized : string) : string :=
  if (r =? 45) || (r =? 32)          (* r == '-' || r == ' ' *)
  then sanitized +:+ "_"
  else sanitized +:+ utf8.EncodeRune r.

(** The range loop; [fuel] bounds the number of iterations, and the
    number of bytes left is always enough. *)
Fixpoint sanitize_loop (fuel : nat) (name sanitized : string) : string :=
  match fuel with
  | O => sanitized
  | S fuel' =>
    match name with
    | EmptyString => sanitized
    | String _ _ =>
      let '(r, size) := utf8.DecodeRuneInString name in
      sanitize_loop fuel' (string_drop size name) (sanitize_step r sanitized)
    end
  end.

Definition sanitizeToolName (name : string) : string :=
  sanitize_loop (String.length name) name "".

(** The piece of output one rune contributes. *)
Definition sanitize_piece (r : utf8.rune) : string := sanitize_step r "".

(** ** Packages unicode, strings, fmt and sort (Go standard library) *)
Module unicode.

(** unicode.IsSpace: the Latin-1 cases and the White_Space table. *)
Definition IsSpace (r : utf8.rune) : bool :=
  if utf8.between 0 r 0xFF then
    utf8.between 0x09 r 0x0D || (r =? 0x20) || (r =? 0x85) || (r =? 0xA0)
  else
    (r =? 0x1680) || utf8.between 0x2000 r 0x200A || utf8.between 0x2028 r 0x2029
    || (r =? 0x202F) || (r =? 0x205F) || (r =? 0x3000).

(** The case-mapping tables of the Unicode database for the runes above
    U+007F; they are data of the Go distribution and stay a parameter. *)
Record CaseTables := {
  lower_table : utf8.rune -> utf8.rune;
  upper_table : utf8.rune -> utf8.rune;
}.

Definition ToLower (t : CaseTables) (r : utf8.rune) : utf8.rune :=
  if r <=? 0x7F then (if utf8.between 65 r 90 then r + 32 else r)
  else lower_table t r.

Definition ToUpper (t : CaseTables) (r : utf8.rune) : utf8.rune :=
  if r <=? 0x7F then (if utf8.between 97 r 122 then r - 32 else r)
  else upper_table t r.

End unicode.

Module strings.

Fixpoint HasPrefix (s prefix : string) : bool :=
  match prefix, s with
  | EmptyString, _ => true
  | String p prefix', String c s' =>
      if Stdlib.Strings.Ascii.eqb c p then HasPrefix s' prefix' else false
  | String _ _, EmptyString => false
  end.

(** strings.Index: the offset of the first occurrence, [None] for -1. *)
Fixpoint Index (s substr : string) : option nat :=
  if HasPrefix s substr then Some O
  else match s with
       | EmptyString => None
       | String _ s' => S <$> Index s' substr
       end.

Definition Contains (s substr : string) : bool :=
  match Index s substr with Some _ => true | None => false end.

(** strings.SplitN for a non-empty separator and [n >= 0]. *)
Fixpoint SplitN (s sep : string) (n : nat) : list string :=
  match n with
  | O => []
  | S O => [s]
  | S n' =>
    match Index s sep with
    | None => [s]
    | Some m =>
        string_take m s :: SplitN (string_drop (m + String.length sep) s) sep n'
    end
  end.

(** strings.ReplaceAll for a non-empty [old]: the occurrences are taken
    from left to right and do not overlap; [skip] counts the bytes of the
    occurrence being replaced that are still to be passed over. *)
Fixpoint replace_from (skip : nat) (s old new : string) : string :=
  match s with
  | EmptyString => EmptyString
  | String c s' =>
    match skip with
    | S k => replace_from k s' old new
    | O =>
      if HasPrefix s old
      then new +:+ replace_from (String.length old - 1) s' old new
      else String c (replace_from O s' old new)
    end
  end.

Definition ReplaceAll (s old new : string) : string := replace_from O s old new.

(** strings.Map: every rune is replaced by its image (a negative image
    drops it); an invalid byte counts as U+FFFD. *)
Fixpoint map_loop (fuel : nat) (mapping : utf8.rune -> utf8.rune) (s : string) : string :=
  match fuel with
  | O => EmptyString
  | S fuel' =>
    match s with
    | EmptyString => EmptyString
    | String _ _ =>
      let '(r, size) := utf8.DecodeRuneInString s in
      let r' := mapping r in
      (if 0 <=? r' then utf8.EncodeRune r' else EmptyString)
        +:+ map_loop fuel' mapping (string_drop size s)
    end
  end.

Definition Map (mapping : utf8.rune -> utf8.rune) (s : string) : string :=
  map_loop (String.length s) mapping s.

Definition ToLower (t : unicode.CaseTables) (s : string) : string :=
  Map (unicode.ToLower t) s.

Definition ToUpper (t : unicode.CaseTables) (s : string) : string :=
  Map (unicode.ToUpper t) s.

Fixpoint Repeat (s : string) (count : nat) : string :=
  match count with
  | O => EmptyString
  | S k => s +:+ Repeat s k
  end.

(** indexFunc(s, f, false): the offset of the first rune that does not
    satisfy [f]. *)
Fixpoint indexFunc_not (fuel : nat) (f : utf8.rune -> bool) (s : string) (i : nat)
  : option nat :=
  match fuel with
  | O => None
  | S fuel' =>
    match s with
    | EmptyString => None
    | String _ _ =>
      let '(r, size) := utf8.DecodeRuneInString s in
      if f r then indexFunc_not fuel' f (string_drop size s) (i + size)
      else Some i
    end
  end.

Definition TrimLeftFunc (s : string) (f : utf8.rune -> bool) : string :=
  match indexFunc_not (String.length s) f s O with
  | None => EmptyString
  | Some i => string_drop i s
  end.

Definition byte_at (s : string) (i : Z) : Z :=
  match String.get (Z.to_nat i) s with
  | Some b => utf8.byteZ b
  | None => 0
  end.

(** utf8.RuneStart: [b&0xC0 != 0x80]. *)
Definition RuneStart (b : Z) : bool := negb (b / 64 =? 2).

(** The backward scan of utf8.DecodeLastRuneInString:
    [for start--; start >= lim; start-- { if RuneStart(s[start]) { break } }],
    entered after the first decrement. *)
Fixpoint scan_back (steps : nat) (s : string) (start lim : Z) : Z :=
  match steps with
  | O => start
  | S k =>
    if start <? lim then start
    else if RuneStart (byte_at s start) then start
    else scan_back k s (start - 1) lim
  end.

Definition DecodeLastRuneInString (s : string) : utf8.rune * nat :=
  let end_ := Z.of_nat (String.length s) in
  if end_ =? 0 then (utf8.RuneError, O)
  else
    let r := byte_at s (end_ - 1) in
    if r <? utf8.RuneSelf then (r, 1%nat)
    else
      let lim := Z.max 0 (end_ - 4) in
      let start := Z.max 0 (scan_back 4 s (end_ - 2) lim) in
      let '(r, size) := utf8.DecodeRuneInString (string_drop (Z.to_nat start) s) in
      if start + Z.of_nat size =? end_ then (r, size) else (utf8.RuneError, 1%nat).

(** lastIndexFunc(s, f, false), working on the prefix [s[0:i]]. *)
Fixpoint lastIndexFunc_not (fuel : nat) (f : utf8.rune -> bool) (s : string) (i : nat)
  : option nat :=
  match fuel with
  | O => None
  | S fuel' =>
    match i with
    | O => None
    | S _ =>
      let '(r, size) := DecodeLastRuneInString (string_take i s) in
      if f r then lastIndexFunc_not fuel' f s (i - size)
      else Some (i - size)%nat
    end
  end.

Definition TrimRightFunc (s : string) (f : utf8.rune -> bool) : string :=
  match lastIndexFunc_not (String.length s) f s (String.length s) with
  | None => EmptyString
  | Some i =>
    if utf8.RuneSelf <=? byte_at s (Z.of_nat i)
    then string_take (i + snd (utf8.DecodeRuneInString (string_drop i s))) s
    else string_take (i + 1) s
  end.

Definition TrimFunc (s : string) (f : utf8.rune -> bool) : string :=
  TrimRightFunc (TrimLeftFunc s f) f.

(** strings.TrimSpace; its fast path for ASCII returns the same string. *)
Definition TrimSpace (s : string) : string := TrimFunc s unicode.IsSpace.

End strings.

Module fmt.

(** utf8.RuneCountInString, which the width of [%-*s] counts. *)
Fixpoint rune_count (fuel : nat) (s : string) : nat :=
  match fuel with
  | O => O
  | S fuel' =>
    match s with
    | EmptyString => O
    | String _ _ =>
      S (rune_count fuel' (string_drop (snd (utf8.DecodeRuneInString s)) s))
    end
  end.

Definition RuneCountInString (s : string) : nat := rune_count (String.length s) s.

(** [fmt.Sprintf("%-*s", width, s)]: left-justified, padded with spaces. *)
Definition pad_right (width : nat) (s : string) : string :=
  s +:+ strings.Repeat " " (width - RuneCountInString s).

End fmt.

(** sort.Strings: ascending byte-wise order. *)
Definition sort_Strings (l : list string) : list string := merge_sort String.le l.

(** ** Errors (types/errors.go, package errors, package net) *)

(** An error value: a plain message ([errors.New], [fmt.Errorf] without
    [%w]), a message wrapping another error ([fmt.Errorf] with [%w]), an
    error that implements [net.Error], or a [*types.BridgeError]. *)
Inductive error : Type :=
| errorString (text : string)
| wrapError (text : string) (err : error)
| netError (text : string) (timeout : bool)
| BridgeError (Operation Message : string) (Err : option error).

(** The [Error()] method. *)
Fixpoint Error (e : error) : string :=
  match e with
  | errorString text => text
  | wrapError text _ => text
  | netError text _ => text
  | BridgeError op msg (Some err) =>
      "bridge error during " +:+ op +:+ ": " +:+ msg +:+ ": " +:+ Error err
  | BridgeError op msg None => "bridge error during " +:+ op +:+ ": " +:+ msg
  end.

(** [fmt.Errorf(prefix + "%w", err)]. *)
Definition Errorf_w (prefix : string) (err : error) : error :=
  wrapError (prefix +:+ Error err) err.

Definition ErrBridgeInit : error := errorString "bridge initialization failed".

(** The [Unwrap()] method; [BridgeError.Unwrap] returns the sentinel, not
    the wrapped error. *)
Definition Unwrap (e : error) : option error :=
  match e with
  | wrapError _ err => Some err
  | BridgeError _ _ _ => Some ErrBridgeInit
  | errorString _ | netError _ _ => None
  end.

(** [errors.As(err, &netErr)] followed by [netErr.Timeout()]: the chain
    of [Unwrap] is followed to the first [net.Error]. *)
Fixpoint As_netError (e : error) : option bool :=
  match e with
  | netError _ timeout => Some timeout
  | wrapError _ err => As_netError err
  | errorString _ => None
  | BridgeError _ _ _ => None      (* the chain goes on with ErrBridgeInit *)
  end.

(** isRetryableError (bridge.go); [None] is the nil error. *)
Definition isRetryableError (err : option error) : bool :=
  match err with
  | None => false
  | Some e =>
    match As_netError e with
    | Some timeout => timeout
    | None => false
    end
  end.

(** A Go result pair [(value, err)]. *)
Inductive result (A : Type) : Type :=
| Ok (value : A)
| Err (err : error).
Arguments Ok {A} value.
Arguments Err {A} err.

(** ** Dynamic values *)

(** A decoded JSON value [interface{}].  A number is a [float64]; it is
    kept as the text that [fmt]'s [%v] prints for it, the only thing the
    bridge does with a number. *)
Inductive json : Type :=
| JNull
| JBool (b : bool)
| JNumber (text : string)
| JString (s : string)
| JArray (items : list json)
| JObject (fields : list (string * json)).

(** A value handed over by database/sql when scanning into
    [*interface{}]. *)
Inductive sqlvalue : Type :=
| SqlNull
| SqlInt64 (n : Z)
| SqlFloat64 (text : string)
| SqlBool (b : bool)
| SqlBytes (b : string)
| SqlString (s : string)
| SqlTime (text : string).

Definition join (sep : string) (l : list string) : string :=
  match l with
  | [] => ""
  | x :: l' => fold_left (fun acc y => acc +:+ sep +:+ y) l' x
  end.

(** [fmt.Sprintf("%v", val)] for a scanned value. *)
Definition Sprint_v (val : sqlvalue) : string :=
  match val with
  | SqlNull => "<nil>"
  | SqlInt64 n => pretty n
  | SqlFloat64 text => text
  | SqlBool b => if b then "true" else "false"
  | SqlBytes b =>
      "[" +:+ join " " ((fun c => pretty (utf8.byteZ c)) <$> list_ascii_of_string b) +:+ "]"
  | SqlString s => s
  | SqlTime text => text
  end.

(** ** types/types.go and the types of mcp-go that the bridge uses *)
Record ToolCall := {
  ID : string;
  Type_ : string;
  Function_Name : string;
  Function_Arguments : gmap string json;
}.

Record LLMResponse := {
  Content : string;
  ToolCalls : list ToolCall;
}.

(** The [map[string]interface{}] with the two keys ["tool_call_id"] and
    ["output"] that the bridge builds for every executed call. *)
Record ToolResult := {
  tool_call_id : string;
  output : string;
}.

Record Tool := {
  Tool_Name : string;
  Tool_Description : string;
  Tool_InputSchema : json;
}.

(** An element of [CallToolResult.Content]: the [mcp.TextContent] that
    [MCPClient.CallTool] builds, or a decoded JSON object. *)
Inductive ContentItem : Type :=
| TextContent (Text : string)
| ContentMap (fields : gmap string json).

Record CallToolResult := { Result_Content : list ContentItem }.

Record CallToolRequest := {
  Params_Name : string;
  Params_Arguments : gmap string json;
}.

Record MCPServerConfig := {
  Server_Name : string;
  Server_Command : string;
  Server_Arguments : list string;
}.

(** A spawned provider session, identified by the order of spawning. *)
Definition MCPClient := nat.

(** ** The world outside the bridge

    [World] records what the bridge has done to its collaborators so far,
    in the order of time; [Env] gives their answers, each of which may
    depend on everything recorded before. *)
Inductive llm_request : Type :=
| Generate (msg : string)
| Continue (toolResults : list ToolResult).

Record World := {
  llm_log : list llm_request;                       (* requests sent to the model endpoint *)
  sleep_log : list Z;                               (* time.Sleep durations, in nanoseconds *)
  db_log : list string;                             (* queries run by db.Query *)
  rpc_log : list (MCPClient * CallToolRequest);     (* MCPClient.CallTool invocations *)
  close_log : list MCPClient;                       (* MCPClient.Close invocations *)
}.

Definition world0 : World :=
  {| llm_log := []; sleep_log := []; db_log := []; rpc_log := [];
     close_log := [] |}.

(** What [db.Query] delivers: the column names and, row by row, what
    [rows.Scan] stores (or the error it returns). *)
Record QueryRows := {
  Rows_Columns : list string;
  Rows_Scan : list (result (list sqlvalue));
}.

Record Env := {
  llm_GenerateResponse : World -> string -> result LLMResponse;
  llm_ContinueWithToolResults : World -> list ToolResult -> result LLMResponse;
  db_Query : World -> string -> result QueryRows;
  client_CallTool : World -> MCPClient -> CallToolRequest -> result CallToolResult;
  client_New : World -> MCPServerConfig -> result MCPClient;
  client_Initialize : World -> MCPClient -> option error;
  client_ListTools : World -> MCPClient -> result (list Tool);
  json_MarshalIndent : ContentItem -> option string;
  case_tables : unicode.CaseTables;
}.

(** Computations that change the world. *)
Definition M (A : Type) : Type := World -> A * World.

Definition ret {A} (a : A) : M A := fun w => (a, w).

Definition bind {A B} (m : M A) (k : A -> M B) : M B :=
  fun w => let '(a, w') := m w in k a w'.

Declare Scope go_scope.
Delimit Scope go_scope with go.
Notation "x <~ m ;; k" := (bind m (fun x => k))
  (at level 100, m at next level, right associativity) : go_scope.
Notation "m ;;; k" := (bind m (fun _ => k))
  (at level 100, right associativity) : go_scope.
Local Open Scope go_scope.

(** [time.Second], a [time.Duration] in nanoseconds, and the wrap-around
    of its [int64]. *)
Definition Second : Z := 1000000000.

Definition int64_wrap (z : Z) : Z := (z + 2 ^ 63) mod 2 ^ 64 - 2 ^ 63.

Definition Sleep (d : Z) : M unit :=
  fun w => (tt, {| llm_log := llm_log w; sleep_log := sleep_log w ++ [d];
                   db_log := db_log w; rpc_log := rpc_log w;
               close_log := close_log w |}).

Definition generateLLMResponse (env : Env) (msg : string) : M (result LLMResponse) :=
  fun w => (llm_GenerateResponse env w msg,
            {| llm_log := llm_log w ++ [Generate msg]; sleep_log := sleep_log w;
               db_log := db_log w; rpc_log := rpc_log w;
               close_log := close_log w |}).

Definition generateLLMResponseWithTools (env : Env) (toolResults : list ToolResult)
  : M (result LLMResponse) :=
  fun w => (llm_ContinueWithToolResults env w toolResults,
            {| llm_log := llm_log w ++ [Continue toolResults]; sleep_log := sleep_log w;
               db_log := db_log w; rpc_log := rpc_log w;
               close_log := close_log w |}).

Definition Query (env : Env) (query : string) : M (result QueryRows) :=
  fun w => (db_Query env w query,
            {| llm_log := llm_log w; sleep_log := sleep_log w;
               db_log := db_log w ++ [query]; rpc_log := rpc_log w;
               close_log := close_log w |}).

Definition CallTool (env : Env) (client : MCPClient) (req : CallToolRequest)
  : M (result CallToolResult) :=
  fun w => (client_CallTool env w client req,
            {| llm_log := llm_log w; sleep_log := sleep_log w;
               db_log := db_log w; rpc_log := rpc_log w ++ [(client, req)];
               close_log := close_log w |}).

(** ** The built-in query tool (tools/database.go) *)
Record ColumnSchema := {
  Column_Name : string;
  Column_Type : string;
}.

Record TableSchema := {
  Table_Name : string;
  Table_Columns : list ColumnSchema;
}.

Record DatabaseTool := { schemas : gmap string TableSchema }.

Definition forbidden_words : list string :=
  ["drop"; "alter"; "delete"; "update"; "insert"].

(** DatabaseTool.validateQuery; [None] is the nil error. *)
Definition validateQuery (t : unicode.CaseTables) (tool : DatabaseTool) (query : string)
  : option error :=
  let lowerQuery := strings.ToLower t query in
  if existsb (strings.Contains lowerQuery) forbidden_words
  then Some (errorString "only SELECT queries are allowed")
  else if existsb (fun tableName => strings.Contains lowerQuery (strings.ToLower t tableName))
                  (map_to_list (schemas tool)).*1
  then None
  else Some (errorString "query must reference a valid table").

(** The body of [for i, col := range columns] in Execute: a NULL leaves
    the row alone, a [[]byte] is stored as a string. *)
Definition store_column (values : list sqlvalue) (row : gmap string sqlvalue)
    (ic : nat * string) : gmap string sqlvalue :=
  match values !! ic.1 with
  | None | Some SqlNull => row
  | Some (SqlBytes b) => <[ic.2 := SqlString b]> row
  | Some val => <[ic.2 := val]> row
  end.

Definition index_columns (columns : list string) : list (nat * string) :=
  imap (fun i col => (i, col)) columns.

Definition scan_row (columns : list string) (values : list sqlvalue)
  : gmap string sqlvalue :=
  fold_left (store_column values) (index_columns columns) ∅.

(** The loop [for rows.Next()] of Execute. *)
Fixpoint scan_rows (columns : list string) (rows : list (result (list sqlvalue)))
    (results : list (gmap string sqlvalue)) : result (list (gmap string sqlvalue)) :=
  match rows with
  | [] => Ok results
  | Err err :: _ => Err (Errorf_w "failed to scan row: " err)
  | Ok values :: rows' => scan_rows columns rows' (results ++ [scan_row columns values])
  end.

(** DatabaseTool.Execute. *)
Definition Execute (env : Env) (tool : DatabaseTool) (params : gmap string json)
  : M (result (list (gmap string sqlvalue))) :=
  match params !! "query" with
  | Some (JString query) =>
    match validateQuery (case_tables env) tool query with
    | Some err => ret (Err (Errorf_w "invalid query: " err))
    | None =>
      r <~ Query env query ;;
      match r with
      | Err err => ret (Err (Errorf_w "failed to execute query: " err))
      | Ok rows => ret (scan_rows (Rows_Columns rows) (Rows_Scan rows) [])
      end
    end
  | _ => ret (Err (errorString "query parameter is required"))
  end.

(** ** The orchestrator, multi-server version (bridge/bridge.go with
    [serverMap]) *)

Definition nl : string := String "010"%char "".

(** The table layout shared by the formatters: header, separator and one
    line per row, every cell padded to the width of its column and
    followed by two spaces. *)
Definition colWidth (v : list (gmap string sqlvalue)) (col : string) : nat :=
  fold_left
    (fun width row =>
       match row !! col with
       | Some val => Nat.max width (String.length (Sprint_v val))
       | None => width
       end)
    v (String.length col).

Definition table_header (t : unicode.CaseTables) (v : list (gmap string sqlvalue))
    (columns : list string) : string :=
  fold_left (fun sb col => sb +:+ fmt.pad_right (colWidth v col) (strings.ToUpper t col) +:+ "  ")
    columns "" +:+ nl.

Definition table_separator (v : list (gmap string sqlvalue)) (columns : list string) : string :=
  fold_left (fun sb col => sb +:+ strings.Repeat "-" (colWidth v col) +:+ "  ") columns ""
    +:+ nl.

Definition table_row (v : list (gmap string sqlvalue)) (columns : list string)
    (row : gmap string sqlvalue) : string :=
  fold_left
    (fun sb col =>
       match row !! col with
       | Some val => sb +:+ fmt.pad_right (colWidth v col) (Sprint_v val) +:+ "  "
       | None => sb +:+ fmt.pad_right (colWidth v col) "" +:+ "  "
       end)
    columns "" +:+ nl.

Definition format_table (t : unicode.CaseTables) (columns : list string)
    (v : list (gmap string sqlvalue)) : string :=
  table_header t v columns +:+ table_separator v columns
    +:+ fold_left (fun sb row => sb +:+ table_row v columns row) v "".

(** The keys of all the rows, sorted. *)
Definition all_columns (v : list (gmap string sqlvalue)) : list string :=
  sort_Strings (elements (⋃ (dom <$> v) : gset string)).

(** Bridge.formatDatabaseResult on the [[]map[string]interface{}] that
    Execute returns. *)
Definition formatDatabaseResult (t : unicode.CaseTables) (v : list (gmap string sqlvalue))
  : string :=
  match v with
  | [] => ""
  | _ :: _ => format_table t (all_columns v) v
  end.

Record Bridge := {
  tools : list Tool;
  toolMap : gmap string string;
  serverMap : gmap string MCPClient;
  dbTool : DatabaseTool;
  config_MCPServers : list MCPServerConfig;
}.

(** Bridge.handleDatabaseTool. *)
Definition handleDatabaseTool (env : Env) (b : Bridge) (call : ToolCall)
  : M (result ToolResult) :=
  match Function_Arguments call !! "query" with
  | Some (JString query) =>
    r <~ Execute env (dbTool b) {[ "query" := JString query ]} ;;
    match r with
    | Err err => ret (Err (Errorf_w "database query failed: " err))
    | Ok rows =>
      ret (Ok {| tool_call_id := ID call;
                 output := formatDatabaseResult (case_tables env) rows |})
    end
  | _ => ret (Err (errorString "invalid query argument"))
  end.

(** Bridge.formatToolResult. *)
Definition format_item (env : Env) (content : ContentItem) : string :=
  match content with
  | ContentMap v =>
    match v !! "text" with
    | Some (JString text) => text +:+ nl
    | _ =>
      match json_MarshalIndent env content with
      | Some data => data +:+ nl
      | None => ""
      end
    end
  | TextContent _ =>
    match json_MarshalIndent env content with
    | Some data => data +:+ nl
    | None => ""
    end
  end.

Definition formatToolResult (env : Env) (res : CallToolResult) : string :=
  match Result_Content res with
  | [] => ""
  | _ :: _ =>
    strings.TrimSpace
      (fold_left (fun out content => out +:+ format_item env content) (Result_Content res) "")
  end.

(** The argument conversion of handleToolCalls: a number under the key
    ["limit"] or ["interval"] becomes the string [%v] prints for it. *)
Definition convert_argument (k : string) (v : json) : json :=
  match v with
  | JNumber text =>
    if String.eqb k "limit" || String.eqb k "interval" then JString text else v
  | _ => v
  end.

Definition convertedArgs (args : gmap string json) : gmap string json :=
  map_imap (fun k v => Some (convert_argument k v)) args.

(** Bridge.handleToolCalls; [results] is the slice built so far. *)
Fixpoint handleToolCalls (env : Env) (b : Bridge) (toolCalls : list ToolCall)
    (results : list ToolResult) : M (result (list ToolResult)) :=
  match toolCalls with
  | [] => ret (Ok results)
  | call :: toolCalls' =>
    match toolMap b !! Function_Name call with
    | None => ret (Err (errorString ("unknown tool: " +:+ Function_Name call)))
    | Some mcpName =>
      if String.eqb mcpName "query_database" then
        r <~ handleDatabaseTool env b call ;;
        match r with
        | Err err => ret (Err err)
        | Ok res => handleToolCalls env b toolCalls' (results ++ [res])
        end
      else
        match strings.SplitN mcpName "/" 2 with
        | [serverName; toolName] =>
          match serverMap b !! serverName with
          | None => ret (Err (errorString ("unknown MCP server: " +:+ serverName)))
          | Some client =>
            r <~ CallTool env client
                   {| Params_Name := toolName;
                      Params_Arguments := convertedArgs (Function_Arguments call) |} ;;
            match r with
            | Err err => ret (Err (Errorf_w "tool execution failed: " err))
            | Ok res =>
              handleToolCalls env b toolCalls'
                (results ++ [{| tool_call_id := ID call;
                                output := formatToolResult env res |}])
            end
          end
        | _ => ret (Err (errorString ("invalid tool mapping: " +:+ mcpName)))
        end
    end
  end.

(** How the retry loop of ProcessMessage is left: by [break] with a
    response, by [return "", err], or because [attempts < 3] became
    false, with the last value of [err]. *)
Inductive loop_exit : Type :=
| Broke (response : LLMResponse)
| Returned (err : error)
| Fell (err : option error).

(** [for attempts := 0; attempts < 3; attempts++]; [left] is
    [3 - attempts]. *)
Fixpoint retry_loop (env : Env) (msg : string) (left : nat) (backoff : Z)
    (err : option error) : M loop_exit :=
  match left with
  | O => ret (Fell err)
  | S left' =>
    r <~ generateLLMResponse env msg ;;
    match r with
    | Ok response => ret (Broke response)
    | Err err' =>
      if negb (isRetryableError (Some err')) then ret (Returned err')
      else
        Sleep backoff ;;;
        retry_loop env msg left' (int64_wrap (backoff * 2)) (Some err')
    end
  end.

(** The clean-up of the content at the end of ProcessMessage. *)
Definition clean_content (content : string) : string :=
  strings.TrimSpace
    (strings.ReplaceAll (strings.ReplaceAll content "<|im_start|>" "") "<|im_end|>" "").

(** The part of ProcessMessage after a successful generation. *)
Definition process_response
    (handle : list ToolCall -> list ToolResult -> M (result (list ToolResult)))
    (response : LLMResponse) : M (result string) :=
  match ToolCalls response with
  | _ :: _ =>
    r <~ handle (ToolCalls response) [] ;;
    match r with
    | Err err =>
      ret (Err (BridgeError "handle_tools" "tool execution failed" (Some err)))
    | Ok (first :: _) => ret (Ok (output first))
    | Ok [] => ret (Ok (clean_content (Content response)))
    end
  | [] => ret (Ok (clean_content (Content response)))
  end.

(** Bridge.ProcessMessage, as a function of the dispatcher it calls.  The
    case [Fell None] needs a loop of no iteration and does not arise. *)
Definition ProcessMessage_with
    (handle : list ToolCall -> list ToolResult -> M (result (list ToolResult)))
    (env : Env) (msg : string) : M (result string) :=
  exit <~ retry_loop env msg 3 Second None ;;
  match exit with
  | Returned err => ret (Err err)
  | Fell (Some err) =>
    ret (Err (BridgeError "process_message" "failed after retry attempts" (Some err)))
  | Fell None => ret (Err (errorString "nil response"))
  | Broke response => process_response handle response
  end.

Definition ProcessMessage (env : Env) (b : Bridge) (msg : string) : M (result string) :=
  ProcessMessage_with (handleToolCalls env b) env msg.

(** The registration loop of Bridge.Initialize for one server. *)
Definition register_tool (serverName : string) (b : Bridge) (tool : Tool) : Bridge :=
  {| tools := tools b ++ [tool];
     toolMap := <[sanitizeToolName (Tool_Name tool) := serverName +:+ "/" +:+ Tool_Name tool]>
                  (toolMap b);
     serverMap := serverMap b;
     dbTool := dbTool b;
     config_MCPServers := config_MCPServers b |}.

Definition register_tools (serverName : string) (discovered : list Tool) (b : Bridge)
  : Bridge :=
  fold_left (register_tool serverName) discovered b.

Definition store_client (serverName : string) (client : MCPClient) (b : Bridge) : Bridge :=
  {| tools := tools b; toolMap := toolMap b;
     serverMap := <[serverName := client]> (serverMap b);
     dbTool := dbTool b; config_MCPServers := config_MCPServers b |}.

Definition Close_client (client : MCPClient) : M unit :=
  fun w => (tt, {| llm_log := llm_log w; sleep_log := sleep_log w; db_log := db_log w;
                   rpc_log := rpc_log w; close_log := close_log w ++ [client] |}).

Definition NewMCPClient (env : Env) (cfg : MCPServerConfig) : M (result MCPClient) :=
  fun w => (client_New env w cfg, w).

Definition Initialize_client (env : Env) (client : MCPClient) : M (option error) :=
  fun w => (client_Initialize env w client, w).

Definition ListTools (env : Env) (client : MCPClient) : M (result (list Tool)) :=
  fun w => (client_ListTools env w client, w).

(** [for _, serverCfg := range b.config.MCPServers] of Initialize. *)
Fixpoint init_servers (env : Env) (servers : list MCPServerConfig) (b : Bridge)
  : M (option error * Bridge) :=
  match servers with
  | [] => ret (None, b)
  | serverCfg :: servers' =>
    let name := Server_Name serverCfg in
    c <~ NewMCPClient env serverCfg ;;
    match c with
    | Err err =>
      ret (Some (Errorf_w ("failed to create MCP client for " +:+ name +:+ ": ") err), b)
    | Ok client =>
      e <~ Initialize_client env client ;;
      match e with
      | Some err =>
        Close_client client ;;;
        ret (Some (Errorf_w ("failed to initialize MCP client for " +:+ name +:+ ": ") err), b)
      | None =>
        l <~ ListTools env client ;;
        match l with
        | Err err =>
          Close_client client ;;;
          ret (Some (Errorf_w ("failed to list tools for " +:+ name +:+ ": ") err), b)
        | Ok discovered =>
          init_servers env servers'
            (store_client name client (register_tools name discovered b))
        end
      end
    end
  end.

Definition queryTool : Tool :=
  {| Tool_Name := "query_database";
     Tool_Description := "Execute a SQL query against the SQLite database";
     Tool_InputSchema :=
       JObject [("type", JString "object");
                ("properties",
                 JObject [("query", JObject [("type", JString "string");
                                             ("description", JString "SQL query to execute")])]);
                ("required", JArray [JString "query"])] |}.

(** bridge.New, given the database tool it opened and the configured
    servers. *)
Definition New (tool : DatabaseTool) (servers : list MCPServerConfig) : Bridge :=
  {| tools := [queryTool]; toolMap := ∅; serverMap := ∅; dbTool := tool;
     config_MCPServers := servers |}.

(** Bridge.Initialize; [llmClient.SetTools] only stores [b.tools] and
    returns nil. *)
Definition Initialize (env : Env) (b : Bridge) : M (option error * Bridge) :=
  init_servers env (config_MCPServers b)
    {| tools := tools b;
       toolMap := <["query_database" := "query_database"]> (toolMap b);
       serverMap := serverMap b; dbTool := dbTool b;
       config_MCPServers := config_MCPServers b |}.

(** ** The orchestrator, single-server version (the earlier bridge.go,
    with the continuation loop) *)
Module single.

Definition fixed_columns : list string :=
  ["id"; "user_id"; "product"; "price"; "created_at"].

(** The formatting [switch] of handleToolCalls on what Execute returns. *)
Definition format_result (t : unicode.CaseTables) (v : list (gmap string sqlvalue)) : string :=
  match v with
  | [] => ""
  | _ :: _ => format_table t fixed_columns v
  end.

(** Bridge.handleToolCalls: only the query tool can be executed. *)
Fixpoint handleToolCalls (env : Env) (b : Bridge) (toolCalls : list ToolCall)
    (results : list ToolResult) : M (result (list ToolResult)) :=
  match toolCalls with
  | [] => ret (Ok results)
  | call :: toolCalls' =>
    match toolMap b !! Function_Name call with
    | None => ret (Err (errorString ("unknown tool: " +:+ Function_Name call)))
    | Some mcpName =>
      if String.eqb mcpName "query_database" then
        match Function_Arguments call !! "query" with
        | Some (JString query) =>
          r <~ Execute env (dbTool b) {[ "query" := JString query ]} ;;
          match r with
          | Err err => ret (Err (Errorf_w "tool execution failed: " err))
          | Ok rows =>
            handleToolCalls env b toolCalls'
              (results ++ [{| tool_call_id := ID call;
                              output := format_result (case_tables env) rows |}])
          end
        | _ => ret (Err (errorString "invalid query argument"))
        end
      else ret (Err (errorString ("unknown tool: " +:+ mcpName)))
    end
  end.

Definition empty_or_tag (content : string) : bool :=
  String.eqb content "" || String.eqb content "<|im_start|>"
  || String.eqb content "<|im_end|>".

(** [for len(response.ToolCalls) > 0] of ProcessMessage, with the
    variables [response] and [lastToolResult]; the loop has no bound of
    its own, [None] says that [fuel] iterations were not enough. *)
Fixpoint tool_loop (fuel : nat) (env : Env) (b : Bridge) (response : LLMResponse)
    (lastToolResult : string) : M (option (result (LLMResponse * string))) :=
  match ToolCalls response with
  | [] => ret (Some (Ok (response, lastToolResult)))
  | _ :: _ =>
    match fuel with
    | O => ret None
    | S fuel' =>
      r <~ handleToolCalls env b (ToolCalls response) [] ;;
      match r with
      | Err err =>
        ret (Some (Err (BridgeError "handle_tools" "tool execution failed" (Some err))))
      | Ok toolResults =>
        let lastToolResult' :=
          match toolResults with
          | first :: _ => output first
          | [] => lastToolResult
          end in
        c <~ generateLLMResponseWithTools env toolResults ;;
        match c with
        | Err err =>
          ret (Some (Err (BridgeError "continue_with_tools" "LLM continuation failed"
                            (Some err))))
        | Ok response' =>
          if empty_or_tag (Content response')
          then ret (Some (Ok ({| Content := lastToolResult';
                                 ToolCalls := ToolCalls response' |}, lastToolResult')))
          else tool_loop fuel' env b response' lastToolResult'
        end
      end
    end
  end.

(** Bridge.ProcessMessage. *)
Definition ProcessMessage (fuel : nat) (env : Env) (b : Bridge) (msg : string)
  : M (option (result string)) :=
  exit <~ retry_loop env msg 3 Second None ;;
  match exit with
  | Returned err => ret (Some (Err err))
  | Fell (Some err) =>
    ret (Some (Err (BridgeError "process_message" "failed after retry attempts" (Some err))))
  | Fell None => ret (Some (Err (errorString "nil response")))
  | Broke response =>
    l <~ tool_loop fuel env b response "" ;;
    match l with
    | None => ret None
    | Some (Err err) => ret (Some (Err err))
    | Some (Ok (response', lastToolResult)) =>
      let content := clean_content (Content response') in
      if String.eqb content "" && negb (String.eqb lastToolResult "")
      then ret (Some (Ok lastToolResult))
      else ret (Some (Ok content))
    end
  end.

End single.

(** Bridge.ProcessMessage of the bridge.go without [serverMap]: the text
    of the multi-server one over the single-server dispatcher. *)
Definition ProcessMessage_db (env : Env) (b : Bridge) (msg : string) : M (result string) :=
  ProcessMessage_with (single.handleToolCalls env b) env msg.

(** ** The provider protocol client (bridge/mcpclient.go) *)
Module mcpclient.

Definition by_key (a b : string * string) : Prop := String.le a.1 b.1.

#[local] Instance by_key_dec : RelDecision by_key.
Proof. intros a b. unfold by_key. apply _. Defined.

(** [fmt.Sprintf("%v", v)] for a decoded JSON value; a map is printed
    with its keys in ascending order. *)
Fixpoint Sprint_json (v : json) : string :=
  match v with
  | JNull => "<nil>"
  | JBool b => if b then "true" else "false"
  | JNumber text => text
  | JString s => s
  | JArray items => "[" +:+ join " " (List.map Sprint_json items) +:+ "]"
  | JObject fields =>
    "map["
      +:+ join " "
            (List.map (fun kv : string * string => kv.1 +:+ ":" +:+ kv.2)
               (merge_sort by_key
                  (List.map (fun kv : string * json =>
                               let '(k, x) := kv in (k, Sprint_json x)) fields)))
      +:+ "]"
  end.

Definition isDevelopmentModeWarning (msg : string) : bool :=
  strings.Contains msg "Running in development mode".

(** What one line makes the reader do: write to the log, send the line
    on [respChan]. *)
Inductive event : Type :=
| Logged (text : string)
| Delivered (line : string)
| Closed.

(** [method, ok := msg["method"].(string); ok && method == "notify"]. *)
Definition is_notify (msg : gmap string json) : bool :=
  match msg !! "method" with
  | Some (JString method) => String.eqb method "notify"
  | _ => false
  end.

(** The body of the loop of readResponses after [json.Unmarshal] has
    succeeded with [msg]. *)
Definition handle_message (msg : gmap string json) (line : string) : list event :=
  if is_notify msg then
    match msg !! "params" with
    | Some (JObject params) =>
      if negb (isDevelopmentModeWarning (Sprint_json (JObject params)))
      then [Logged ("Notification received: " +:+ Sprint_json (JObject params))]
      else []
    | _ => []
    end
  else
    match msg !! "result" with
    | Some _ => [Logged ("Response received: " +:+ line); Delivered line]
    | None => []
    end.

(** The body of the loop for one line; [unmarshal] is [json.Unmarshal]
    into a [map[string]interface{}], [None] when it returns an error. *)
Definition handle_line (unmarshal : string -> option (gmap string json)) (line : string)
  : list event :=
  if (String.length line =? 0)%nat then []
  else
    match unmarshal line with
    | None => []
    | Some msg => handle_message msg line
    end.

(** [reader.ReadBytes('\n')] over what the provider writes: the complete
    lines, each with its delimiter, and the unterminated rest. *)
Fixpoint read_lines (data line : string) : list string * string :=
  match data with
  | EmptyString => ([], line)
  | String c data' =>
    if Stdlib.Strings.Ascii.eqb c "010"%char
    then let '(lines, rest) := read_lines data' "" in
         ((line +:+ nl) :: lines, rest)
    else read_lines data' (line +:+ String c "")
  end.

(** MCPClient.readResponses on a provider that writes [data] and then
    ends its output; [read_error] is the error of the last read when it
    is not [io.EOF]. *)
Definition readResponses (unmarshal : string -> option (gmap string json))
    (data : string) (read_error : option error) : list event :=
  flat_map (handle_line unmarshal) (read_lines data "").1
    ++ match read_error with
       | Some err => [Logged ("Error reading response: " +:+ Error err)]
       | None => []
       end
    ++ [Closed].

(** *** Teardown *)
Inductive teardown_step : Type := CloseStdin | CloseStdout | Kill | Wait.

(** What the operating system answers to each step of Close. *)
Record process := {
  stdin_Close : option error;
  stdout_Close : option error;
  Process_Kill : option error;
  cmd_Wait : option error;
}.

Definition teardown_order : list teardown_step := [CloseStdin; CloseStdout; Kill; Wait].

(** MCPClient.Close: the steps attempted, in order, and the error
    returned. *)
Definition Close (p : process) : list teardown_step * option error :=
  match stdin_Close p with
  | Some err => ([CloseStdin], Some (Errorf_w "failed to close stdin: " err))
  | None =>
    match stdout_Close p with
    | Some err => ([CloseStdin; CloseStdout], Some (Errorf_w "failed to close stdout: " err))
    | None =>
      match Process_Kill p with
      | Some err =>
        ([CloseStdin; CloseStdout; Kill], Some (Errorf_w "failed to kill process: " err))
      | None =>
        match cmd_Wait p with
        | Some err =>
          ([CloseStdin; CloseStdout; Kill; Wait],
           Some (Errorf_w "failed to wait for process: " err))
        | None => ([CloseStdin; CloseStdout; Kill; Wait], None)
        end
      end
    end
  end.

End mcpclient.

(** ** A session under several callers

    Every operation of MCPClient (Initialize, ListTools, CallTool) has the
    same shape: take an id from [c.nextID] and increment it, call
    sendRequest (lock [c.mu], write the request, unlock on return), then
    [select] between a receive on [c.respChan] and a timer.  The callers
    are goroutines running such operations; the provider answers the
    requests it reads in their order, and the reader goroutine forwards
    each answer to [respChan], a channel with a buffer of one. *)
Module session.

(** Where a caller is in its current operation. *)
Inductive pc : Type :=
| Idle                     (* between operations *)
| Built (id : Z)           (* [rpcReq] built, [c.nextID++] done *)
| Locked (id : Z)          (* in sendRequest, [c.mu] held *)
| Written (id : Z)         (* request written to stdin, [c.mu] held *)
| Waiting (id : Z).        (* sendRequest returned, blocked in [select] *)

Record caller := {
  at_ : pc;
  calls_left : nat;                      (* operations still to be invoked *)
  received : list (Z * option Z);        (* per finished operation: id sent, id of
                                            the response taken, [None] on timeout *)
}.

Record state := {
  mu : option nat;          (* the caller holding [c.mu] *)
  nextID : Z;
  stdin : list Z;           (* requests written, not yet read by the provider *)
  stdout : list Z;          (* responses written by the provider, not yet forwarded *)
  respChan : list Z;        (* the buffer of the channel *)
  callers : list caller;
}.

Inductive action : Type :=
| Call (tid : nat)          (* caller [tid] takes its next step *)
| Timeout (tid : nat)       (* the timer of caller [tid] fires *)
| Provider                  (* the provider answers its next request *)
| Reader.                   (* readResponses forwards the next response *)

Definition set_caller (tid : nat) (c : caller) (s : state) : state :=
  {| mu := mu s; nextID := nextID s; stdin := stdin s; stdout := stdout s;
     respChan := respChan s; callers := <[tid := c]> (callers s) |}.

Definition move (c : caller) (p : pc) : caller :=
  {| at_ := p; calls_left := calls_left c; received := received c |}.

Definition finish (c : caller) (id : Z) (resp : option Z) : caller :=
  {| at_ := Idle; calls_left := calls_left c; received := received c ++ [(id, resp)] |}.

(** One step of caller [tid]; [None] when the step is not enabled. *)
Definition call_step (tid : nat) (s : state) : option state :=
  match callers s !! tid with
  | None => None
  | Some c =>
    match at_ c with
    | Idle =>
      match calls_left c with
      | O => None
      | S n =>
        Some {| mu := mu s; nextID := nextID s + 1; stdin := stdin s; stdout := stdout s;
                respChan := respChan s;
                callers := <[tid := {| at_ := Built (nextID s); calls_left := n;
                                       received := received c |}]> (callers s) |}
      end
    | Built id =>
      match mu s with
      | Some _ => None
      | None =>
        Some {| mu := Some tid; nextID := nextID s; stdin := stdin s; stdout := stdout s;
                respChan := respChan s;
                callers := <[tid := move c (Locked id)]> (callers s) |}
      end
    | Locked id =>
      Some {| mu := mu s; nextID := nextID s; stdin := stdin s ++ [id]; stdout := stdout s;
              respChan := respChan s;
              callers := <[tid := move c (Written id)]> (callers s) |}
    | Written id =>
      Some {| mu := None; nextID := nextID s; stdin := stdin s; stdout := stdout s;
              respChan := respChan s;
              callers := <[tid := move c (Waiting id)]> (callers s) |}
    | Waiting id =>
      match respChan s with
      | [] => None
      | resp :: buffer =>
        Some {| mu := mu s; nextID := nextID s; stdin := stdin s; stdout := stdout s;
                respChan := buffer;
                callers := <[tid := finish c id (Some resp)]> (callers s) |}
      end
    end
  end.

Definition timeout_step (tid : nat) (s : state) : option state :=
  match callers s !! tid with
  | Some c =>
    match at_ c with
    | Waiting id => Some (set_caller tid (finish c id None) s)
    | _ => None
    end
  | None => None
  end.

Definition provider_step (s : state) : option state :=
  match stdin s with
  | [] => None
  | id :: requests =>
    Some {| mu := mu s; nextID := nextID s; stdin := requests; stdout := stdout s ++ [id];
            respChan := respChan s; callers := callers s |}
  end.

Definition reader_step (s : state) : option state :=
  match stdout s, respChan s with
  | id :: responses, [] =>
    Some {| mu := mu s; nextID := nextID s; stdin := stdin s; stdout := responses;
            respChan := [id]; callers := callers s |}
  | _, _ => None
  end.

Definition step (a : action) (s : state) : option state :=
  match a with
  | Call tid => call_step tid s
  | Timeout tid => timeout_step tid s
  | Provider => provider_step s
  | Reader => reader_step s
  end.

(** A schedule is run from left to right. *)
Fixpoint run (schedule : list action) (s : state) : option state :=
  match schedule with
  | [] => Some s
  | a :: schedule' =>
    match step a s with
    | Some s' => run schedule' s'
    | None => None
    end
  end.

(** A fresh session (after NewMCPClient, whose test request took id 1)
    with one caller per entry of [calls], the number of operations that
    caller will invoke. *)
Definition init (calls : list nat) : state :=
  {| mu := None; nextID := 2; stdin := []; stdout := []; respChan := [];
     callers := (fun n => {| at_ := Idle; calls_left := n; received := [] |}) <$> calls |}.

Definition in_sendRequest (c : caller) : bool :=
  match at_ c with
  | Locked _ | Written _ => true
  | _ => false
  end.

(** A request is outstanding from its write until its caller has taken a
    response or given up. *)
Definition is_outstanding (c : caller) : bool :=
  match at_ c with
  | Written _ | Waiting _ => true
  | _ => false
  end.

Definition outstanding (s : state) : nat :=
  length (filter (fun c => is_outstanding c = true) (callers s)).

Definition no_timeout (schedule : list action) : Prop :=
  forall tid, Timeout tid ∉ schedule.

(** The requests and responses in transit, the oldest first: a write
    appends to this queue, the provider and the reader move its elements
    along, a receive takes its head. *)
Definition in_flight (s : state) : list Z := respChan s ++ stdout s ++ stdin s.

(** [c.mu] is held by a caller exactly while that caller is inside
    sendRequest. *)
Definition lock_inv (s : state) : Prop :=
  forall tid c, callers s !! tid = Some c -> (in_sendRequest c = true <-> mu s = Some tid).

(** What is in transit for a caller at [p] when it is the only one. *)
Definition expected_in_flight (p : pc) : list Z :=
  match p with
  | Written id | Waiting id => [id]
  | Idle | Built _ | Locked _ => []
  end.

(** Every finished operation took the response to its own request. *)
Definition own_responses (c : caller) : Prop :=
  Forall (fun rr : Z * option Z => rr.2 = Some rr.1) (received c).

(** The session of a single caller whose operations do not time out. *)
Definition seq_inv (s : state) : Prop :=
  exists c, callers s = [c] /\ own_responses c
            /\ in_flight s = expected_in_flight (at_ c).

End session.

(** ** Concrete bridges and environments

    The database of example/create-example-db.go and a few scripted
    collaborators, on which the properties below are exercised. *)
Module fixtures.

(** Case tables that leave every rune above U+007F alone. *)
Definition plain_tables : unicode.CaseTables :=
  {| unicode.lower_table := fun r => r; unicode.upper_table := fun r => r |}.

Definition users : TableSchema :=
  {| Table_Name := "users";
     Table_Columns := [ {| Column_Name := "id"; Column_Type := "INTEGER" |};
                        {| Column_Name := "name"; Column_Type := "TEXT" |};
                        {| Column_Name := "email"; Column_Type := "TEXT" |} ] |}.

Definition orders : TableSchema :=
  {| Table_Name := "orders";
     Table_Columns := [ {| Column_Name := "id"; Column_Type := "INTEGER" |};
                        {| Column_Name := "user_id"; Column_Type := "INTEGER" |};
                        {| Column_Name := "product"; Column_Type := "TEXT" |};
                        {| Column_Name := "price"; Column_Type := "DECIMAL(10,2)" |};
                        {| Column_Name := "created_at"; Column_Type := "DATETIME" |} ] |}.

Definition example_db : DatabaseTool :=
  {| schemas := {[ "users" := users; "orders" := orders ]} |}.

(** A database with a table named [t]. *)
Definition t_db : DatabaseTool :=
  {| schemas := {[ "t" := {| Table_Name := "t"; Table_Columns := [] |} ]} |}.

(** What SQLite answers to the queries used below. *)
Definition select_one : QueryRows :=
  {| Rows_Columns := ["1"]; Rows_Scan := [Ok [SqlInt64 1]] |}.

Definition count_users : QueryRows :=
  {| Rows_Columns := ["COUNT(*)"]; Rows_Scan := [Ok [SqlInt64 3]] |}.

Definition users_emails : QueryRows :=
  {| Rows_Columns := ["name"; "email"];
     Rows_Scan := [Ok [SqlString "Alice Smith"; SqlBytes "alice@example.com"];
                   Ok [SqlString "Dave Null"; SqlNull]] |}.

Definition same_name_twice : QueryRows :=
  {| Rows_Columns := ["x"; "x"]; Rows_Scan := [Ok [SqlInt64 1; SqlNull]] |}.

Definition sqlite (w : World) (query : string) : result QueryRows :=
  if String.eqb query "SELECT 1" then Ok select_one
  else if String.eqb query "SELECT COUNT(*) FROM users" then Ok count_users
  else if String.eqb query "SELECT name, email FROM users" then Ok users_emails
  else if String.eqb query "SELECT 1 AS x, NULL AS x FROM users" then Ok same_name_twice
  else Err (errorString "no such table").

(** An environment from a model endpoint; the providers never answer. *)
Definition env_of
    (generate : World -> string -> result LLMResponse)
    (continue : World -> list ToolResult -> result LLMResponse) : Env :=
  {| llm_GenerateResponse := generate;
     llm_ContinueWithToolResults := continue;
     db_Query := sqlite;
     client_CallTool := fun _ _ _ => Err (errorString "timeout waiting for response");
     client_New := fun _ _ => Err (errorString "failed to start command");
     client_Initialize := fun _ _ => None;
     client_ListTools := fun _ _ => Ok [];
     json_MarshalIndent := fun _ => None;
     case_tables := plain_tables |}.

Definition plain (content : string) : LLMResponse :=
  {| Content := content; ToolCalls := [] |}.

Definition query_call (id query : string) : ToolCall :=
  {| ID := id; Type_ := "function"; Function_Name := "query_database";
     Function_Arguments := {[ "query" := JString query ]} |}.


Definition status_error : error :=
  errorString "unexpected status code: 500, body: ".


Definition no_continue (w : World) (toolResults : list ToolResult) : result LLMResponse :=
  Err status_error.

(** A model that asks for the number of users and, told the result,
    answers in words. *)
Definition asks_count : LLMResponse :=
  {| Content := "";
     ToolCalls := [query_call "call_1" "SELECT COUNT(*) FROM users"] |}.

Definition counting_env : Env :=
  env_of (fun _ _ => Ok asks_count) (fun _ _ => Ok (plain "There are 3 users.")).

(** A model that keeps asking for the same tool and always says
    something. *)
Definition insisting : LLMResponse :=
  {| Content := "Let me check.";
     ToolCalls := [query_call "call_n" "SELECT COUNT(*) FROM users"] |}.

Definition insisting_env : Env :=
  env_of (fun _ _ => Ok insisting) (fun _ _ => Ok insisting).

(** A model whose continuation has nothing to say. *)
Definition silent_env : Env :=
  env_of (fun _ _ => Ok asks_count) (fun _ _ => Ok (plain "")).

(** The bridge after Initialize, without providers. *)
Definition bridge_of (tool : DatabaseTool) : Bridge :=
  {| tools := [queryTool]; toolMap := {[ "query_database" := "query_database" ]};
     serverMap := ∅; dbTool := tool; config_MCPServers := [] |}.

(** One provider, [priceserver], exposing the tool [fetch price]. *)
Definition priceserver : MCPServerConfig :=
  {| Server_Name := "priceserver"; Server_Command := "npx";
     Server_Arguments := ["price-mcp"] |}.

Definition fetch_price : Tool :=
  {| Tool_Name := "fetch price"; Tool_Description := "Fetch the price of a ticker";
     Tool_InputSchema := JObject [("type", JString "object")] |}.

Definition price_env : Env :=
  {| llm_GenerateResponse := fun _ _ => Ok (plain "");
     llm_ContinueWithToolResults := no_continue;
     db_Query := sqlite;
     client_CallTool := fun _ _ _ => Ok {| Result_Content := [TextContent "42"] |};
     client_New := fun _ _ => Ok 0%nat;
     client_Initialize := fun _ _ => None;
     client_ListTools := fun _ _ => Ok [fetch_price];
     json_MarshalIndent := fun _ => None;
     case_tables := plain_tables |}.

(** Lines of a provider: a response, an error response, a notification
    and a start-up banner. *)
Definition dq : string := String "034"%char "".

(** JSON text, written with ['] for the double quote. *)
Definition js (text : string) : string := strings.ReplaceAll text "'" dq.

Definition result_line : string :=
  js "{'jsonrpc':'2.0','id':2,'result':{'tools':[]}}" +:+ nl.

Definition result_msg : gmap string json :=
  {[ "jsonrpc" := JString "2.0"; "id" := JNumber "2";
     "result" := JObject [("tools", JArray [])] ]}.

Definition error_line : string :=
  js "{'jsonrpc':'2.0','id':3,'error':{'code':-32601,'message':'Method not found'}}"
    +:+ nl.

Definition error_msg : gmap string json :=
  {[ "jsonrpc" := JString "2.0"; "id" := JNumber "3";
     "error" := JObject [("code", JNumber "-32601");
                         ("message", JString "Method not found")] ]}.

Definition progress_line : string :=
  js "{'jsonrpc':'2.0','method':'notifications/progress','params':{'progress':1}}"
    +:+ nl.

Definition progress_msg : gmap string json :=
  {[ "jsonrpc" := JString "2.0"; "method" := JString "notifications/progress";
     "params" := JObject [("progress", JNumber "1")] ]}.

Definition banner_line : string := "> price-mcp@1.0.0 start" +:+ nl.

(** [json.Unmarshal] on these lines. *)
Definition unmarshal (line : string) : option (gmap string json) :=
  if String.eqb line result_line then Some result_msg
  else if String.eqb line error_line then Some error_msg
  else if String.eqb line progress_line then Some progress_msg
  else None.

End fixtures.

(** ** Vocabulary of the properties *)

(** The world after one more request to the model endpoint, after one
    more sleep, and after one more query. *)
Definition requested (q : llm_request) (w : World) : World :=
  {| llm_log := llm_log w ++ [q]; sleep_log := sleep_log w; db_log := db_log w;
     rpc_log := rpc_log w; close_log := close_log w |}.

Definition slept (d : Z) (w : World) : World :=
  {| llm_log := llm_log w; sleep_log := sleep_log w ++ [d]; db_log := db_log w;
     rpc_log := rpc_log w; close_log := close_log w |}.

Definition queried (query : string) (w : World) : World :=
  {| llm_log := llm_log w; sleep_log := sleep_log w; db_log := db_log w ++ [query];
     rpc_log := rpc_log w; close_log := close_log w |}.

(** A failed attempt of the retry loop that is followed by a backoff. *)
Definition retried (msg : string) (d : Z) (w : World) : World :=
  slept d (requested (Generate msg) w).


(** Nothing was said to the model and nobody slept between [w] and [w']. *)
Definition same_conversation (w w' : World) : Prop :=
  llm_log w' = llm_log w /\ sleep_log w' = sleep_log w.

(** Whether the lower-cased name of a table of the schema occurs in the
    lower-cased query: the second test of validateQuery. *)
Definition mentions_table (t : unicode.CaseTables) (tool : DatabaseTool) (query : string)
  : bool :=
  existsb (fun tableName =>
             strings.Contains (strings.ToLower t query) (strings.ToLower t tableName))
    (map_to_list (schemas tool)).*1.

(** What a scanned value becomes in the row: nothing for NULL, a string
    for a byte slice, itself otherwise. *)
Definition stored (val : sqlvalue) : option sqlvalue :=
  match val with
  | SqlNull => None
  | SqlBytes b => Some (SqlString b)
  | _ => Some val
  end.

Definition is_stored (val : sqlvalue) : Prop :=
  val <> SqlNull /\ forall b, val <> SqlBytes b.

(** What the dispatch of [fixtures.insisting] gives. *)
Definition insisting_result : ToolResult :=
  {| tool_call_id := "call_n";
     output := single.format_result fixtures.plain_tables
                 [ {[ "COUNT(*)" := SqlInt64 3 ]} ] |}.

(** ** Vocabulary of the further properties *)

(** The world after one more session was closed. *)
Definition closed (client : MCPClient) (w : World) : World :=
  {| llm_log := llm_log w; sleep_log := sleep_log w; db_log := db_log w;
     rpc_log := rpc_log w; close_log := close_log w ++ [client] |}.




(** A query that validateQuery lets through. *)
Definition validated (t : unicode.CaseTables) (tool : DatabaseTool) (query : string) : Prop :=
  existsb (strings.Contains (strings.ToLower t query)) forbidden_words = false
  /\ mentions_table t tool query = true.

(** A string without a line feed, and a line as [ReadBytes] returns it:
    a body without a line feed, then the line feed. *)
Definition no_newline (s : string) : Prop := strings.Index s nl = None.

Definition complete_line (line : string) : Prop :=
  exists body, line = body +:+ nl /\ no_newline body.

(** The lines put back one after the other. *)
Definition concat_lines (lines : list string) : string :=
  fold_right String.append "" lines.

(** ** Bridge.Close (the orchestrator with providers) *)

(** [%v] of a slice of errors, without the brackets: the texts a space
    apart. *)
Fixpoint join_errors (errs : list error) : string :=
  match errs with
  | [] => ""
  | [e] => Error e
  | e :: rest => Error e +:+ " " +:+ join_errors rest
  end.

(** [for name, client := range b.serverMap] of Close, the entries taken
    in the order [order]; what [client.Close()] returns may depend on
    what was closed before. *)
Fixpoint close_clients (client_Close : World -> MCPClient -> option error)
    (order : list (string * MCPClient)) (errs : list error) : M (list error) :=
  match order with
  | [] => ret errs
  | (name, client) :: order' =>
    fun w =>
      close_clients client_Close order'
        match client_Close w client with
        | Some err => errs ++ [Errorf_w ("MCP server " +:+ name +:+ ": ") err]
        | None => errs
        end
        (closed client w)
  end.

(** The bridge after Close: the registry, the sessions and the tool list
    are nil. *)
Definition cleared (b : Bridge) : Bridge :=
  {| tools := []; toolMap := ∅; serverMap := ∅; dbTool := dbTool b;
     config_MCPServers := config_MCPServers b |}.

(** Bridge.Close; [db_Close] is what [b.dbTool.Close()] returns and
    [order] the order in which [range] visits [b.serverMap]. *)
Definition Bridge_Close (db_Close : option error)
    (client_Close : World -> MCPClient -> option error)
    (order : list (string * MCPClient)) (b : Bridge) : M (option error * Bridge) :=
  errs <~ close_clients client_Close order
            match db_Close with
            | Some err => [Errorf_w "database tool: " err]
            | None => []
            end ;;
  match errs with
  | [] => ret (None, cleared b)
  | _ :: _ =>
    ret (Some (errorString ("multiple close errors: [" +:+ join_errors errs +:+ "]")),
         cleared b)
  end.

(** The world after the sessions [clients] were closed one after the
    other. *)
Definition closed_all (clients : list MCPClient) (w : World) : World :=
  fold_left (fun w client => closed client w) clients w.

(** * Properties *)

Local Open Scope go_scope.

(** *** Idempotence of the sanitisation *)
Section Sanitization.
Import utf8.

Lemma byteZ_bounds b : 0 <= byteZ b < 256.
Proof.
  unfold byteZ. pose proof (N_ascii_bounded b). lia.
Qed.

Lemma byteZ_mkByte z : 0 <= z < 256 -> byteZ (mkByte z) = z.
Proof.
  intros Hz. unfold byteZ, mkByte.
  rewrite N_ascii_embedding by lia. lia.
Qed.

Lemma string_app_cons c s t : String c s +:+ t = String c (s +:+ t).
Proof. reflexivity. Qed.

Lemma string_app_nil t : "" +:+ t = t.
Proof. reflexivity. Qed.

Ltac zdiv := Z.to_euclidean_division_equations; lia.

Ltac step_test :=
  match goal with
  | |- context [Z.ltb ?a ?b] =>
      destruct (Z.ltb_spec a b); [ try (exfalso; zdiv) | try (exfalso; zdiv) ]
  | |- context [Z.leb ?a ?b] =>
      destruct (Z.leb_spec a b); [ try (exfalso; zdiv) | try (exfalso; zdiv) ]
  | |- context [Z.eqb ?a ?b] =>
      destruct (Z.eqb_spec a b); [ try (exfalso; zdiv) | try (exfalso; zdiv) ]
  end; cbn [andb orb negb Nat.leb].

Ltac unfold_codec :=
  unfold DecodeRuneInString, EncodeRune, first, ValidRune, between,
    locb, hicb, RuneSelf, MaxRune, RuneError in *.

Lemma ValidRune_spec r :
  ValidRune r = true <-> (0 <= r <= 0xD7FF \/ 0xE000 <= r <= 0x10FFFF).
Proof.
  unfold ValidRune, between, MaxRune.
  rewrite orb_true_iff, !andb_true_iff, !Z.leb_le. tauto.
Qed.

Lemma decode_encode r t :
  ValidRune r = true ->
  DecodeRuneInString (EncodeRune r +:+ t) = (r, String.length (EncodeRune r)).
Proof.
  intros Hv. apply ValidRune_spec in Hv.
  unfold_codec.
  repeat step_test; rewrite ?string_app_cons, ?string_app_nil;
    cbn [String.length]; rewrite ?byteZ_mkByte by zdiv.
  all: repeat step_test.
  all: try (f_equal; zdiv).
Qed.

Lemma decode_sound c s :
  let '(r, n) := DecodeRuneInString (String c s) in
  ValidRune r = true /\ (1 <= n <= String.length (String c s))%nat.
Proof.
  pose proof (byteZ_bounds c) as Hc.
  destruct s as [|c1 [|c2 [|c3 s]]];
    try pose proof (byteZ_bounds c1); try pose proof (byteZ_bounds c2);
    try pose proof (byteZ_bounds c3).
  all: unfold_codec; cbn [String.length].
  all: repeat step_test.
  all: rewrite ?orb_true_iff, ?andb_true_iff, ?Z.leb_le.
  all: try (split; [zdiv | lia]).
Qed.

Lemma string_app_assoc (a b c : string) : (a +:+ b) +:+ c = a +:+ (b +:+ c).
Proof. induction a as [|x a IH]; [reflexivity|]. rewrite !string_app_cons, IH. reflexivity. Qed.

Lemma string_app_nil_r (a : string) : a +:+ "" = a.
Proof. induction a as [|x a IH]; [reflexivity|]. rewrite string_app_cons, IH. reflexivity. Qed.

Lemma string_drop_app (a t : string) : string_drop (String.length a) (a +:+ t) = t.
Proof. induction a as [|x a IH]; [reflexivity|]. rewrite string_app_cons. exact IH. Qed.

Lemma string_drop_length n s : (String.length (string_drop n s) <= String.length s - n)%nat.
Proof.
  revert s. induction n as [|n IH]; intros s; cbn [string_drop]; [lia|].
  destruct s as [|c s]; cbn [String.length]; [lia|]. specialize (IH s). lia.
Qed.

Lemma sanitize_step_acc r acc : sanitize_step r acc = acc +:+ sanitize_piece r.
Proof. unfold sanitize_piece, sanitize_step. destruct (_ || _); reflexivity. Qed.

Lemma sanitize_loop_acc fuel : forall name acc,
  sanitize_loop fuel name acc = acc +:+ sanitize_loop fuel name "".
Proof.
  induction fuel as [|fuel IH]; intros name acc; cbn [sanitize_loop].
  - now rewrite string_app_nil_r.
  - destruct name as [|c s]; [now rewrite string_app_nil_r|].
    destruct (DecodeRuneInString (String c s)) as [r size].
    rewrite IH, (IH _ (sanitize_step r "")), (sanitize_step_acc r acc).
    rewrite string_app_assoc. reflexivity.
Qed.

Lemma sanitize_loop_fuel fuel1 : forall fuel2 name acc,
  (String.length name <= fuel1)%nat -> (String.length name <= fuel2)%nat ->
  sanitize_loop fuel1 name acc = sanitize_loop fuel2 name acc.
Proof.
  induction fuel1 as [|fuel1 IH]; intros fuel2 name acc H1 H2.
  - destruct name; cbn [String.length] in *; [|lia]. destruct fuel2; reflexivity.
  - destruct name as [|c s]; [destruct fuel2; reflexivity|].
    destruct fuel2 as [|fuel2]; cbn [String.length] in *; [lia|].
    cbn [sanitize_loop].
    pose proof (decode_sound c s) as Hd.
    destruct (DecodeRuneInString (String c s)) as [r size]. destruct Hd as [_ Hsz].
    pose proof (string_drop_length size (String c s)) as Hdrop.
    cbn [String.length] in *.
    apply IH; lia.
Qed.

Lemma sanitize_unfold c s :
  sanitizeToolName (String c s) =
  let '(r, size) := DecodeRuneInString (String c s) in
  sanitize_piece r +:+ sanitizeToolName (string_drop size (String c s)).
Proof.
  unfold sanitizeToolName. cbn [String.length sanitize_loop].
  pose proof (decode_sound c s) as Hd.
  destruct (DecodeRuneInString (String c s)) as [r size]. destruct Hd as [_ Hsz].
  pose proof (string_drop_length size (String c s)) as Hdrop.
  cbn [String.length] in *.
  rewrite sanitize_loop_acc.
  rewrite (sanitize_loop_fuel _ (String.length (string_drop size (String c s)))) by lia.
  reflexivity.
Qed.

Lemma encode_nonempty r : exists c s, EncodeRune r = String c s.
Proof. unfold EncodeRune. repeat destruct (_ : bool); eauto. Qed.

Lemma sanitize_encode r t :
  ValidRune r = true ->
  sanitizeToolName (EncodeRune r +:+ t) = sanitize_piece r +:+ sanitizeToolName t.
Proof.
  intros Hv. destruct (encode_nonempty r) as (c & s & He).
  pose proof (decode_encode r t Hv) as Hd.
  pose proof (string_drop_app (EncodeRune r) t) as Hdr.
  rewrite He in *. rewrite string_app_cons in *.
  rewrite sanitize_unfold, Hd, Hdr. reflexivity.
Qed.

Lemma sanitize_piece_fix r :
  ValidRune r = true ->
  exists r', ValidRune r' = true /\ sanitize_piece r = EncodeRune r'
             /\ sanitize_piece r' = sanitize_piece r.
Proof.
  intros Hv. unfold sanitize_piece, sanitize_step.
  destruct ((r =? 45) || (r =? 32)) eqn:E.
  - exists 95. repeat split; reflexivity.
  - exists r. rewrite E. repeat split; assumption.
Qed.

(** C9: sanitising a sanitised name changes nothing, for every byte
    string, valid UTF-8 or not. *)
Theorem sanitize_idem (name : string) : sanitizeToolName (sanitizeToolName name) = sanitizeToolName name.
Proof.
  remember (String.length name) as n eqn:Hn.
  revert name Hn. induction n as [n IH] using lt_wf_ind. intros name Hn.
  destruct name as [|c s]; [reflexivity|].
  rewrite sanitize_unfold.
  pose proof (decode_sound c s) as Hd.
  destruct (DecodeRuneInString (String c s)) as [r size]. destruct Hd as [Hv Hsz].
  pose proof (string_drop_length size (String c s)) as Hdrop.
  destruct (sanitize_piece_fix r Hv) as (r' & Hv' & Hp & Hp').
  rewrite Hp, sanitize_encode by assumption. rewrite Hp', <- Hp.
  f_equal. eapply IH; [|reflexivity]. lia.
Qed.

End Sanitization.

Example sanitize_fetch_price : sanitizeToolName "fetch price" = "fetch_price".
Proof. reflexivity. Qed.

Example sanitize_get_ticker : sanitizeToolName "get-ticker" = "get_ticker".
Proof. reflexivity. Qed.

(** *** Registration and dispatch *)

(** Registering the tools of one server whose only tool is [tool]. *)
Lemma Initialize_one_server env tool cfg client discovered w :
  client_New env w cfg = Ok client ->
  client_Initialize env w client = None ->
  client_ListTools env w client = Ok discovered ->
  Initialize env (New tool [cfg]) w =
  (None,
   store_client (Server_Name cfg) client
     (register_tools (Server_Name cfg) discovered
        {| tools := [queryTool]; toolMap := {[ "query_database" := "query_database" ]};
           serverMap := ∅; dbTool := tool; config_MCPServers := [cfg] |}),
   w).
Proof.
  intros Hnew Hinit Hlist.
  unfold Initialize, New. cbn [config_MCPServers init_servers tools toolMap serverMap dbTool].
  unfold bind, NewMCPClient, Initialize_client, ListTools, ret.
  rewrite Hnew, Hinit, Hlist. reflexivity.
Qed.

(** C8: when the provider [priceserver] lists the tool [fetch price],
    Initialize registers it under [fetch_price], mapped to
    ["priceserver/fetch price"], and a call to [fetch_price] is resolved
    to the session of [priceserver] and the native name [fetch price]:
    that session receives exactly one CallTool, for [fetch price]. *)
Theorem registration_dispatch_roundtrip (env : Env) (tool : DatabaseTool)
    (client : MCPClient) (call : ToolCall) (w : World) :
  client_New env w fixtures.priceserver = Ok client ->
  client_Initialize env w client = None ->
  client_ListTools env w client = Ok [fixtures.fetch_price] ->
  Function_Name call = "fetch_price" ->
  exists b,
    Initialize env (New tool [fixtures.priceserver]) w = (None, b, w)
    /\ sanitizeToolName "fetch price" = "fetch_price"
    /\ toolMap b !! "fetch_price" = Some "priceserver/fetch price"
    /\ strings.SplitN "priceserver/fetch price" "/" 2 = ["priceserver"; "fetch price"]
    /\ serverMap b !! "priceserver" = Some client
    /\ rpc_log (handleToolCalls env b [call] [] w).2 =
       rpc_log w ++ [(client, {| Params_Name := "fetch price";
                                 Params_Arguments := convertedArgs (Function_Arguments call) |})].
Proof.
  intros Hnew Hinit Hlist Hname.
  eexists. split; [apply Initialize_one_server; eassumption|].
  split; [reflexivity|]. split; [reflexivity|]. split; [reflexivity|].
  split; [reflexivity|].
  cbn [handleToolCalls]. rewrite Hname.
  cbn [store_client register_tools fold_left register_tool toolMap serverMap
       fixtures.priceserver Server_Name fixtures.fetch_price Tool_Name].
  change (sanitizeToolName "fetch price") with "fetch_price".
  rewrite lookup_insert_eq.
  change (String.eqb ("priceserver" +:+ "/" +:+ "fetch price") "query_database") with false.
  change (strings.SplitN ("priceserver" +:+ "/" +:+ "fetch price") "/" 2)
    with ["priceserver"; "fetch price"].
  cbv iota. rewrite lookup_insert_eq.
  unfold bind, CallTool.
  destruct (client_CallTool env w client _) as [res|err]; reflexivity.
Qed.

Lemma registration_dispatch_roundtrip_witness :
  exists b,
    Initialize fixtures.price_env (New fixtures.example_db [fixtures.priceserver]) world0
      = (None, b, world0)
    /\ toolMap b !! "fetch_price" = Some "priceserver/fetch price"
    /\ rpc_log (handleToolCalls fixtures.price_env b
                  [{| ID := "c1"; Type_ := "function"; Function_Name := "fetch_price";
                      Function_Arguments := {[ "ticker" := JString "BTC" ]} |}] [] world0).2
       = [(0%nat, {| Params_Name := "fetch price";
                     Params_Arguments := {[ "ticker" := JString "BTC" ]} |})].
Proof.
  destruct (registration_dispatch_roundtrip fixtures.price_env fixtures.example_db 0%nat
              {| ID := "c1"; Type_ := "function"; Function_Name := "fetch_price";
                 Function_Arguments := {[ "ticker" := JString "BTC" ]} |} world0
              eq_refl eq_refl eq_refl eq_refl)
    as (b & Hinit & _ & Hmap & _ & _ & Hrpc).
  exists b. split; [exact Hinit|]. split; [exact Hmap|].
  rewrite Hrpc. reflexivity.
Defined.

(** *** Dispatch of an unregistered tool name *)

(** Handling a list of calls is handling a first part and, when that
    succeeds, going on with the rest. *)
Lemma handleToolCalls_app env b pre : forall post results w,
  handleToolCalls env b (pre ++ post) results w =
  match handleToolCalls env b pre results w with
  | (Ok results', w') => handleToolCalls env b post results' w'
  | (Err err, w') => (Err err, w')
  end.
Proof.
  induction pre as [|call pre IH]; intros post results w; [reflexivity|].
  rewrite <- app_comm_cons. cbn [handleToolCalls].
  destruct (toolMap b !! Function_Name call) as [mcpName|]; [|reflexivity].
  destruct (String.eqb mcpName "query_database").
  - unfold bind. destruct (handleDatabaseTool env b call w) as [[res|err] w']; [|reflexivity].
    apply IH.
  - destruct (strings.SplitN mcpName "/" 2) as [|serverName [|toolName [|]]]; try reflexivity.
    destruct (serverMap b !! serverName) as [client|]; [|reflexivity].
    unfold bind. destruct (CallTool env client _ w) as [[res|err] w']; [|reflexivity].
    apply IH.
Qed.

Lemma single_handleToolCalls_app env b pre : forall post results w,
  single.handleToolCalls env b (pre ++ post) results w =
  match single.handleToolCalls env b pre results w with
  | (Ok results', w') => single.handleToolCalls env b post results' w'
  | (Err err, w') => (Err err, w')
  end.
Proof.
  induction pre as [|call pre IH]; intros post results w; [reflexivity|].
  rewrite <- app_comm_cons. cbn [single.handleToolCalls].
  destruct (toolMap b !! Function_Name call) as [mcpName|]; [|reflexivity].
  destruct (String.eqb mcpName "query_database"); [|reflexivity].
  destruct (Function_Arguments call !! "query") as [[| | |query| |]|]; try reflexivity.
  unfold bind. destruct (Execute env (dbTool b) _ w) as [[rows|err] w']; [|reflexivity].
  apply IH.
Qed.

(** C7: a request whose name is not in the registry ends the dispatch
    with the error "unknown tool: <name>"; the world is left as the
    requests before it left it, so that neither a provider nor the
    database is called for it or for a later request.  This holds for
    the multi-server dispatcher and for the single-server one. *)
Theorem unknown_tool_fails_fast (env : Env) (b : Bridge) (pre post : list ToolCall)
    (call : ToolCall) (results : list ToolResult) (w : World) :
  toolMap b !! Function_Name call = None ->
  (let before := handleToolCalls env b pre results w in
   let out := handleToolCalls env b (pre ++ call :: post) results w in
   out.2 = before.2 /\
   match before.1 with
   | Ok _ => out.1 = Err (errorString ("unknown tool: " +:+ Function_Name call))
   | Err err => out.1 = Err err
   end) /\
  (let before := single.handleToolCalls env b pre results w in
   let out := single.handleToolCalls env b (pre ++ call :: post) results w in
   out.2 = before.2 /\
   match before.1 with
   | Ok _ => out.1 = Err (errorString ("unknown tool: " +:+ Function_Name call))
   | Err err => out.1 = Err err
   end).
Proof.
  intros Hunknown. split; cbv zeta.
  - rewrite handleToolCalls_app.
    destruct (handleToolCalls env b pre results w) as [[results'|err] w'].
    + cbn [handleToolCalls]. rewrite Hunknown. split; reflexivity.
    + split; reflexivity.
  - rewrite single_handleToolCalls_app.
    destruct (single.handleToolCalls env b pre results w) as [[results'|err] w'].
    + cbn [single.handleToolCalls]. rewrite Hunknown. split; reflexivity.
    + split; reflexivity.
Qed.

(** On the example database: a query, then a tool nobody registered,
    then another query; only the first query is run. *)
Lemma unknown_tool_fails_fast_witness :
  let calls := [fixtures.query_call "c1" "SELECT COUNT(*) FROM users"]
                 ++ {| ID := "c2"; Type_ := "function"; Function_Name := "get_weather";
                       Function_Arguments := ∅ |}
                 :: [fixtures.query_call "c3" "SELECT name, email FROM users"] in
  let out := handleToolCalls fixtures.counting_env (fixtures.bridge_of fixtures.example_db)
               calls [] world0 in
  out.1 = Err (errorString "unknown tool: get_weather")
  /\ db_log out.2 = ["SELECT COUNT(*) FROM users"] /\ rpc_log out.2 = [].
Proof.
  cbv zeta.
  destruct (unknown_tool_fails_fast fixtures.counting_env
              (fixtures.bridge_of fixtures.example_db)
              [fixtures.query_call "c1" "SELECT COUNT(*) FROM users"]
              [fixtures.query_call "c3" "SELECT name, email FROM users"]
              {| ID := "c2"; Type_ := "function"; Function_Name := "get_weather";
                 Function_Arguments := ∅ |} [] world0 eq_refl) as [[Hw Hr] _].
  cbv zeta in Hw, Hr. rewrite Hw. split; [exact Hr|]. split; reflexivity.
Defined.

Lemma Execute_conversation env tool params w :
  same_conversation w (Execute env tool params w).2.
Proof.
  unfold Execute. destruct (params !! "query") as [[| | |query| |]|]; try (split; reflexivity).
  destruct (validateQuery _ _ _); [split; reflexivity|].
  unfold bind, Query. destruct (db_Query env w query); split; reflexivity.
Qed.

Lemma handleDatabaseTool_conversation env b call w :
  same_conversation w (handleDatabaseTool env b call w).2.
Proof.
  unfold handleDatabaseTool.
  destruct (Function_Arguments call !! "query") as [[| | |query| |]|]; try (split; reflexivity).
  unfold bind. pose proof (Execute_conversation env (dbTool b) {["query" := JString query]} w) as H.
  destruct (Execute _ _ _ w) as [[rows|err] w']; exact H.
Qed.

Lemma handleToolCalls_conversation env b toolCalls : forall results w,
  same_conversation w (handleToolCalls env b toolCalls results w).2.
Proof.
  induction toolCalls as [|call toolCalls IH]; intros results w; cbn [handleToolCalls].
  - split; reflexivity.
  - destruct (toolMap b !! Function_Name call) as [mcpName|]; [|split; reflexivity].
    destruct (String.eqb mcpName "query_database").
    + unfold bind. pose proof (handleDatabaseTool_conversation env b call w) as H.
      destruct (handleDatabaseTool env b call w) as [[res|err] w']; [|exact H].
      destruct (IH (results ++ [res]) w') as [H1 H2]. destruct H as [H3 H4].
      cbn [snd] in *. split; congruence.
    + destruct (strings.SplitN mcpName "/" 2) as [|serverName [|toolName [|]]];
        try (split; reflexivity).
      destruct (serverMap b !! serverName) as [client|]; [|split; reflexivity].
      unfold bind, CallTool.
      destruct (client_CallTool env w client _) as [res|err]; [|split; reflexivity].
      match goal with |- same_conversation _ (handleToolCalls _ _ _ ?r ?w').2 =>
        destruct (IH r w') as [H1 H2] end.
      split; [rewrite H1 | rewrite H2]; reflexivity.
Qed.


Lemma retry_loop_3 env msg w :
  let w1 := retried msg Second w in
  let w2 := retried msg (2 * Second) w1 in
  let w3 := retried msg (4 * Second) w2 in
  retry_loop env msg 3 Second None w =
  match llm_GenerateResponse env w msg with
  | Ok r1 => (Broke r1, requested (Generate msg) w)
  | Err e1 =>
    if isRetryableError (Some e1) then
      match llm_GenerateResponse env w1 msg with
      | Ok r2 => (Broke r2, requested (Generate msg) w1)
      | Err e2 =>
        if isRetryableError (Some e2) then
          match llm_GenerateResponse env w2 msg with
          | Ok r3 => (Broke r3, requested (Generate msg) w2)
          | Err e3 =>
            if isRetryableError (Some e3) then (Fell (Some e3), w3)
            else (Returned e3, requested (Generate msg) w2)
          end
        else (Returned e2, requested (Generate msg) w1)
      end
    else (Returned e1, requested (Generate msg) w)
  end.
Proof.
  intros w1 w2 w3. subst w1 w2 w3.
  cbn [retry_loop]. unfold bind, generateLLMResponse, Sleep, ret, retried, slept, requested.
  cbn [llm_log sleep_log db_log rpc_log close_log].
  destruct (llm_GenerateResponse env w msg) as [r1|e1]; [reflexivity|].
  destruct (isRetryableError (Some e1)); cbn [negb]; [|reflexivity].
  destruct (llm_GenerateResponse env _ msg) as [r2|e2]; [reflexivity|].
  destruct (isRetryableError (Some e2)); cbn [negb]; [|reflexivity].
  destruct (llm_GenerateResponse env _ msg) as [r3|e3]; [reflexivity|].
  destruct (isRetryableError (Some e3)); cbn [negb]; reflexivity.
Qed.




(** *** The cycle of generation, dispatch and continuation *)

(** The multi-server orchestrator answers a request for tools with the
    output of the first tool; the model, which had said nothing and
    would have answered in words, is not asked again. *)
Lemma tool_output_is_returned_without_continuation :
  let env := fixtures.counting_env in
  let b := fixtures.bridge_of fixtures.example_db in
  let out := ProcessMessage env b "how many users?" world0 in
  llm_GenerateResponse env world0 "how many users?" = Ok fixtures.asks_count
  /\ Content fixtures.asks_count = ""
  /\ length (ToolCalls fixtures.asks_count) = 1%nat
  /\ out.1 = Ok ("COUNT(*)  " +:+ nl +:+ "--------  " +:+ nl +:+ "3         " +:+ nl)
  /\ llm_log out.2 = [Generate "how many users?"]
  /\ llm_log (ProcessMessage_db env b "how many users?" world0).2
     = [Generate "how many users?"].
Proof. cbv zeta. repeat split. Qed.

Lemma insisting_dispatch w :
  single.handleToolCalls fixtures.insisting_env (fixtures.bridge_of fixtures.example_db)
    (ToolCalls fixtures.insisting) [] w
  = (Ok [insisting_result], queried "SELECT COUNT(*) FROM users" w).
Proof. reflexivity. Qed.

Lemma insisting_loop fuel : forall lastToolResult w,
  (single.tool_loop fuel fixtures.insisting_env (fixtures.bridge_of fixtures.example_db)
     fixtures.insisting lastToolResult w).1 = None.
Proof.
  induction fuel as [|fuel IH]; intros lastToolResult w; [reflexivity|].
  cbn [single.tool_loop]. change (ToolCalls fixtures.insisting) with
    [fixtures.query_call "call_n" "SELECT COUNT(*) FROM users"].
  cbv iota. unfold bind at 1.
  change [fixtures.query_call "call_n" "SELECT COUNT(*) FROM users"]
    with (ToolCalls fixtures.insisting).
  rewrite insisting_dispatch. unfold bind, generateLLMResponseWithTools.
  cbn [fixtures.insisting_env fixtures.env_of llm_ContinueWithToolResults].
  change (single.empty_or_tag (Content fixtures.insisting)) with false. cbv iota.
  apply IH.
Qed.

Lemma single_ProcessMessage_after_retry fuel env b msg w response w1 :
  retry_loop env msg 3 Second None w = (Broke response, w1) ->
  single.ProcessMessage fuel env b msg w =
  match single.tool_loop fuel env b response "" w1 with
  | (None, w') => (None, w')
  | (Some (Err err), w') => (Some (Err err), w')
  | (Some (Ok (response', lastToolResult)), w') =>
    (Some (Ok (if String.eqb (clean_content (Content response')) ""
                  && negb (String.eqb lastToolResult "")
               then lastToolResult else clean_content (Content response'))), w')
  end.
Proof.
  intros Hretry. unfold single.ProcessMessage, bind. rewrite Hretry.
  destruct (single.tool_loop fuel env b response "" w1) as [[[[response' last]|err]|] w'];
    try reflexivity.
  unfold ret. destruct (_ && _); reflexivity.
Qed.

(** The single-server orchestrator has no bound on the turns: with a
    model that asks for a tool in every reply, no number of iterations
    ends the loop. *)
Lemma continuation_has_no_ceiling :
  forall fuel,
    (single.ProcessMessage fuel fixtures.insisting_env
       (fixtures.bridge_of fixtures.example_db) "how many users?" world0).1 = None.
Proof.
  intros fuel.
  rewrite (single_ProcessMessage_after_retry fuel fixtures.insisting_env
             (fixtures.bridge_of fixtures.example_db) "how many users?" world0
             fixtures.insisting (requested (Generate "how many users?") world0) eq_refl).
  pose proof (insisting_loop fuel "" (requested (Generate "how many users?") world0)) as H.
  destruct (single.tool_loop fuel _ _ _ _ _) as [[r|] w']; [discriminate H | reflexivity].
Qed.

Lemma single_handleToolCalls_conversation env b toolCalls : forall results w,
  same_conversation w (single.handleToolCalls env b toolCalls results w).2.
Proof.
  induction toolCalls as [|call toolCalls IH]; intros results w;
    cbn [single.handleToolCalls]; [split; reflexivity|].
  destruct (toolMap b !! Function_Name call) as [mcpName|]; [|split; reflexivity].
  destruct (String.eqb mcpName "query_database"); [|split; reflexivity].
  destruct (Function_Arguments call !! "query") as [[| | |query| |]|]; try (split; reflexivity).
  unfold bind. pose proof (Execute_conversation env (dbTool b) {["query" := JString query]} w) as H.
  destruct (Execute _ _ _ w) as [[rows|err] w']; [|exact H].
  match goal with |- same_conversation _ (single.handleToolCalls _ _ _ ?r ?w1).2 =>
    destruct (IH r w1) as [H1 H2] end.
  destruct H as [H3 H4]. cbn [snd] in *. split; congruence.
Qed.

Lemma ProcessMessage_with_dispatch handle env msg w response w1 first rest w2 :
  retry_loop env msg 3 Second None w = (Broke response, w1) ->
  ToolCalls response <> [] ->
  handle (ToolCalls response) [] w1 = (Ok (first :: rest), w2) ->
  ProcessMessage_with handle env msg w = (Ok (output first), w2).
Proof.
  intros Hretry Hcalls Hhandle.
  unfold ProcessMessage_with, bind. rewrite Hretry. unfold process_response.
  destruct (ToolCalls response) as [|call calls]; [congruence|].
  unfold bind. rewrite Hhandle. reflexivity.
Qed.

Lemma tool_loop_end env b fuel : forall response last w response' last' w',
  single.tool_loop fuel env b response last w = (Some (Ok (response', last')), w') ->
  ToolCalls response' = [] \/ Content response' = last'.
Proof.
  induction fuel as [|fuel IH]; intros response last w response' last' w' H.
  - cbn [single.tool_loop] in H. destruct (ToolCalls response) eqn:Hcalls.
    + inversion H; subst. left. exact Hcalls.
    + discriminate.
  - cbn [single.tool_loop] in H. destruct (ToolCalls response) eqn:Hcalls.
    + inversion H; subst. left. exact Hcalls.
    + unfold bind in H.
      destruct (single.handleToolCalls env b _ [] w) as [[results|err] w1]; [|discriminate].
      unfold generateLLMResponseWithTools in H.
      destruct (llm_ContinueWithToolResults env w1 results) as [reply|err]; [|discriminate].
      destruct (single.empty_or_tag (Content reply)).
      * inversion H; subst. right. reflexivity.
      * exact (IH _ _ _ _ _ _ H).
Qed.

Lemma tool_loop_more_fuel env b fuel : forall response last w r w',
  single.tool_loop fuel env b response last w = (Some r, w') ->
  single.tool_loop (S fuel) env b response last w = (Some r, w').
Proof.
  induction fuel as [|fuel IH]; intros response last w r w' H.
  - cbn [single.tool_loop] in *. destruct (ToolCalls response); [exact H | discriminate].
  - remember (S fuel) as n eqn:Hn. cbn [single.tool_loop]. subst n.
    cbn [single.tool_loop] in H.
    destruct (ToolCalls response); [exact H|].
    unfold bind in *.
    destruct (single.handleToolCalls env b _ [] w) as [[results|err] w1]; [|exact H].
    destruct (generateLLMResponseWithTools env results w1) as [[reply|err] w2]; [|exact H].
    destruct (single.empty_or_tag (Content reply)); [exact H|].
    apply IH. exact H.
Qed.

Lemma tool_loop_fuel_monotone env b response last w r w' fuel fuel' :
  (fuel <= fuel')%nat ->
  single.tool_loop fuel env b response last w = (Some r, w') ->
  single.tool_loop fuel' env b response last w = (Some r, w').
Proof.
  intros Hle H. induction Hle as [|fuel' _ IH]; [exact H|].
  apply tool_loop_more_fuel, IH.
Qed.

(** C3, as the code has it.  The multi-server orchestrator, and the
    bridge.go without providers, dispatch the calls of the first
    response once and return the output of the first call; the model is
    not asked again.  The single-server orchestrator repeats dispatch and
    continuation: a turn whose reply has a content goes on with that
    reply, a turn whose reply is empty or a bare tag ends the loop with
    the first output of that turn as content; the loop ends only on a
    reply without tool calls or on such an empty reply, and the number
    of turns has no bound. *)
Theorem dispatch_continue_cycle (env : Env) (b : Bridge) :
  (forall msg w response w1 first rest w2,
     retry_loop env msg 3 Second None w = (Broke response, w1) ->
     ToolCalls response <> [] ->
     handleToolCalls env b (ToolCalls response) [] w1 = (Ok (first :: rest), w2) ->
     ProcessMessage env b msg w = (Ok (output first), w2) /\ llm_log w2 = llm_log w1)
  /\
  (forall msg w response w1 first rest w2,
     retry_loop env msg 3 Second None w = (Broke response, w1) ->
     ToolCalls response <> [] ->
     single.handleToolCalls env b (ToolCalls response) [] w1 = (Ok (first :: rest), w2) ->
     ProcessMessage_db env b msg w = (Ok (output first), w2) /\ llm_log w2 = llm_log w1)
  /\
  (forall fuel response last w first rest w1 response',
     ToolCalls response <> [] ->
     single.handleToolCalls env b (ToolCalls response) [] w = (Ok (first :: rest), w1) ->
     llm_ContinueWithToolResults env w1 (first :: rest) = Ok response' ->
     single.tool_loop (S fuel) env b response last w =
     if single.empty_or_tag (Content response')
     then (Some (Ok ({| Content := output first; ToolCalls := ToolCalls response' |},
                     output first)),
           requested (Continue (first :: rest)) w1)
     else single.tool_loop fuel env b response' (output first)
            (requested (Continue (first :: rest)) w1))
  /\
  (forall fuel response last w response' last' w',
     single.tool_loop fuel env b response last w = (Some (Ok (response', last')), w') ->
     ToolCalls response' = [] \/ Content response' = last')
  /\
  (forall fuel fuel' response last w r w',
     (fuel <= fuel')%nat ->
     single.tool_loop fuel env b response last w = (Some r, w') ->
     single.tool_loop fuel' env b response last w = (Some r, w')).
Proof.
  split; [|split; [|split; [|split]]].
  - intros msg w response w1 first rest w2 Hretry Hcalls Hhandle. split.
    + exact (ProcessMessage_with_dispatch _ _ _ _ _ _ _ _ _ Hretry Hcalls Hhandle).
    + pose proof (handleToolCalls_conversation env b (ToolCalls response) [] w1) as [H _].
      rewrite Hhandle in H. exact H.
  - intros msg w response w1 first rest w2 Hretry Hcalls Hhandle. split.
    + exact (ProcessMessage_with_dispatch _ _ _ _ _ _ _ _ _ Hretry Hcalls Hhandle).
    + pose proof (single_handleToolCalls_conversation env b (ToolCalls response) [] w1)
        as [H _].
      rewrite Hhandle in H. exact H.
  - intros fuel response last w first rest w1 response' Hcalls Hhandle Hcontinue.
    cbn [single.tool_loop]. destruct (ToolCalls response) as [|call calls]; [congruence|].
    unfold bind. rewrite Hhandle. unfold generateLLMResponseWithTools. rewrite Hcontinue.
    destruct (single.empty_or_tag (Content response')); reflexivity.
  - intros fuel. apply tool_loop_end.
  - intros fuel fuel' response last w r w'. apply tool_loop_fuel_monotone.
Qed.

(** On the example database: the multi-server orchestrator returns the
    table at once; the single-server one, whose model has nothing to say
    after the tool, ends its loop with the table as content. *)
Lemma dispatch_continue_cycle_witness :
  let b := fixtures.bridge_of fixtures.example_db in
  (ProcessMessage fixtures.counting_env b "how many users?" world0).1
  = Ok ("COUNT(*)  " +:+ nl +:+ "--------  " +:+ nl +:+ "3         " +:+ nl)
  /\ (single.tool_loop 1 fixtures.silent_env b fixtures.asks_count ""
        (requested (Generate "how many users?") world0)).1
     = Some (Ok ({| Content := single.format_result fixtures.plain_tables
                                 [ {[ "COUNT(*)" := SqlInt64 3 ]} ];
                    ToolCalls := [] |},
                 single.format_result fixtures.plain_tables [ {[ "COUNT(*)" := SqlInt64 3 ]} ])).
Proof.
  cbv zeta. split.
  - destruct (dispatch_continue_cycle fixtures.counting_env
                (fixtures.bridge_of fixtures.example_db)) as (Hmulti & _).
    destruct (Hmulti "how many users?" world0 fixtures.asks_count
                (requested (Generate "how many users?") world0)
                {| tool_call_id := "call_1";
                   output := "COUNT(*)  " +:+ nl +:+ "--------  " +:+ nl
                             +:+ "3         " +:+ nl |} []
                (queried "SELECT COUNT(*) FROM users"
                   (requested (Generate "how many users?") world0))
                eq_refl ltac:(discriminate) eq_refl) as [Hout _].
    rewrite Hout. reflexivity.
  - destruct (dispatch_continue_cycle fixtures.silent_env
                (fixtures.bridge_of fixtures.example_db)) as (_ & _ & Hturn & _).
    rewrite (Hturn 0%nat fixtures.asks_count "" (requested (Generate "how many users?") world0)
               {| tool_call_id := "call_1";
                  output := single.format_result fixtures.plain_tables
                              [ {[ "COUNT(*)" := SqlInt64 3 ]} ] |} []
               (queried "SELECT COUNT(*) FROM users"
                  (requested (Generate "how many users?") world0))
               (fixtures.plain "") ltac:(discriminate) eq_refl eq_refl).
    reflexivity.
Defined.

(** *** The query [SELECT 1] *)

Lemma validateQuery_select_one t tool :
  validateQuery t tool "SELECT 1" =
  if mentions_table t tool "SELECT 1" then None
  else Some (errorString "query must reference a valid table").
Proof. reflexivity. Qed.

(** In the example database no table name occurs in [select 1]: the
    call is refused and the database is not asked. *)
Lemma select_one_is_rejected :
  handleToolCalls fixtures.counting_env (fixtures.bridge_of fixtures.example_db)
    [fixtures.query_call "call_1" "SELECT 1"] [] world0
  = (Err (wrapError
            "database query failed: invalid query: query must reference a valid table"
            (wrapError "invalid query: query must reference a valid table"
               (errorString "query must reference a valid table"))),
     world0).
Proof. reflexivity. Qed.

(** C5, as the code has it: the call is handed to the database tool,
    which refuses [SELECT 1] without running it unless the name of a
    table of the schema occurs in the query; when one does and the
    database answers with the row [1] under the column [1], the output
    is the table of one column and one row. *)
Theorem select_one_dispatch (env : Env) (b : Bridge) (call : ToolCall) (w : World) :
  toolMap b !! Function_Name call = Some "query_database" ->
  Function_Arguments call !! "query" = Some (JString "SELECT 1") ->
  (mentions_table (case_tables env) (dbTool b) "SELECT 1" = false ->
   handleToolCalls env b [call] [] w =
   (Err (Errorf_w "database query failed: "
           (Errorf_w "invalid query: " (errorString "query must reference a valid table"))),
    w))
  /\
  (mentions_table (case_tables env) (dbTool b) "SELECT 1" = true ->
   db_Query env w "SELECT 1" = Ok fixtures.select_one ->
   handleToolCalls env b [call] [] w =
   (Ok [{| tool_call_id := ID call;
           output := "1  " +:+ nl +:+ "-  " +:+ nl +:+ "1  " +:+ nl |}],
    queried "SELECT 1" w)).
Proof.
  intros Hmap Harg.
  assert (Hhandle : handleToolCalls env b [call] [] w =
            let '(r, w') := Execute env (dbTool b) {["query" := JString "SELECT 1"]} w in
            match r with
            | Err err => (Err (Errorf_w "database query failed: " err), w')
            | Ok rows =>
              (Ok [{| tool_call_id := ID call;
                      output := formatDatabaseResult (case_tables env) rows |}], w')
            end).
  { cbn [handleToolCalls]. rewrite Hmap. cbn [String.eqb Stdlib.Strings.Ascii.eqb Bool.eqb].
    unfold bind, handleDatabaseTool. rewrite Harg. unfold bind.
    destruct (Execute env (dbTool b) _ w) as [[rows|err] w']; reflexivity. }
  rewrite Hhandle. unfold Execute. rewrite lookup_singleton_eq.
  rewrite validateQuery_select_one.
  split.
  - intros Hno. rewrite Hno. reflexivity.
  - intros Hyes Hrows. rewrite Hyes. unfold bind, Query. rewrite Hrows. reflexivity.
Qed.

Lemma select_one_dispatch_witness :
  handleToolCalls fixtures.counting_env (fixtures.bridge_of fixtures.t_db)
    [fixtures.query_call "call_1" "SELECT 1"] [] world0
  = (Ok [{| tool_call_id := "call_1";
            output := "1  " +:+ nl +:+ "-  " +:+ nl +:+ "1  " +:+ nl |}],
     queried "SELECT 1" world0)
  /\ (handleToolCalls fixtures.counting_env (fixtures.bridge_of fixtures.example_db)
        [fixtures.query_call "call_2" "SELECT 1"] [] world0).2 = world0.
Proof.
  split.
  - apply (select_one_dispatch fixtures.counting_env (fixtures.bridge_of fixtures.t_db)
             (fixtures.query_call "call_1" "SELECT 1") world0 eq_refl eq_refl);
      reflexivity.
  - rewrite (proj1 (select_one_dispatch fixtures.counting_env
                      (fixtures.bridge_of fixtures.example_db)
                      (fixtures.query_call "call_2" "SELECT 1") world0 eq_refl eq_refl)
               eq_refl).
    reflexivity.
Defined.

(** *** The rows that Execute returns *)

Lemma stored_is_stored val val' : stored val = Some val' -> is_stored val'.
Proof.
  destruct val; intros H; inversion H; subst; split; intros; discriminate.
Qed.

Lemma store_column_spec values row i col :
  store_column values row (i, col) =
  match values !! i ≫= stored with
  | Some val => <[col := val]> row
  | None => row
  end.
Proof.
  unfold store_column. cbn [fst snd].
  destruct (values !! i) as [[]|]; reflexivity.
Qed.

Lemma store_column_other values row i c col :
  c <> col -> store_column values row (i, c) !! col = row !! col.
Proof.
  intros Hne. rewrite store_column_spec.
  destruct (values !! i ≫= stored); [apply lookup_insert_ne; exact Hne | reflexivity].
Qed.

Lemma store_column_stored values row ic :
  map_Forall (fun _ val => is_stored val) row ->
  map_Forall (fun _ val => is_stored val) (store_column values row ic).
Proof.
  intros Hrow. destruct ic as [i c]. rewrite store_column_spec.
  destruct (values !! i ≫= stored) as [val|] eqn:Hval; [|exact Hrow].
  apply map_Forall_insert_2; [|exact Hrow].
  destruct (values !! i) as [v|]; [|discriminate]. exact (stored_is_stored v val Hval).
Qed.

Lemma fold_store_stored values ics : forall row,
  map_Forall (fun _ val => is_stored val) row ->
  map_Forall (fun _ val => is_stored val) (fold_left (store_column values) ics row).
Proof.
  induction ics as [|ic ics IH]; intros row Hrow; [exact Hrow|].
  cbn [fold_left]. apply IH, store_column_stored, Hrow.
Qed.

(** Storing the columns [cols], numbered from [k], leaves the other
    keys alone. *)
Lemma fold_store_other values cols col : forall k row,
  col ∉ cols ->
  fold_left (store_column values) (imap (fun i c => (k + i, c)%nat) cols) row !! col
  = row !! col.
Proof.
  induction cols as [|c cols IH]; intros k row Hnotin; [reflexivity|].
  apply not_elem_of_cons in Hnotin as [Hne Hnotin].
  cbn [imap fold_left].
  rewrite (imap_ext _ (fun i c0 => ((S k + i)%nat, c0)))
    by (intros; cbn; f_equal; lia).
  rewrite IH by exact Hnotin. apply store_column_other. congruence.
Qed.

(** With distinct names, the key of column [i] holds what its value
    stores, or what the row held before when it stores nothing. *)
Lemma fold_store_at values cols : forall k row i col,
  NoDup cols -> cols !! i = Some col ->
  fold_left (store_column values) (imap (fun i c => (k + i, c)%nat) cols) row !! col
  = match values !! (k + i)%nat ≫= stored with
    | Some val => Some val
    | None => row !! col
    end.
Proof.
  induction cols as [|c cols IH]; intros k row i col Hnodup Hi; [discriminate|].
  apply NoDup_cons in Hnodup as [Hfresh Hnodup].
  cbn [imap fold_left].
  rewrite (imap_ext _ (fun i c0 => ((S k + i)%nat, c0)))
    by (intros; cbn; f_equal; lia).
  destruct i as [|i]; cbn in Hi.
  - inversion Hi; subst c. rewrite fold_store_other by exact Hfresh.
    rewrite Nat.add_0_r, store_column_spec.
    destruct (values !! k ≫= stored); [apply lookup_insert_eq | reflexivity].
  - rewrite (IH (S k) _ i col Hnodup Hi).
    replace (S k + i)%nat with (k + S i)%nat by lia.
    destruct (values !! (k + S i)%nat ≫= stored); [reflexivity|].
    rewrite Nat.add_0_r. apply store_column_other.
    intros ->. apply Hfresh. eapply list_elem_of_lookup_2, Hi.
Qed.

Lemma scan_row_stored columns values :
  map_Forall (fun _ val => is_stored val) (scan_row columns values).
Proof. apply fold_store_stored, map_Forall_empty. Qed.

Lemma scan_row_at columns values i col :
  NoDup columns -> columns !! i = Some col ->
  scan_row columns values !! col = values !! i ≫= stored.
Proof.
  intros Hnodup Hi. unfold scan_row, index_columns.
  rewrite (fold_store_at values columns 0 ∅ i col Hnodup Hi), lookup_empty.
  cbn [Nat.add]. destruct (values !! i ≫= stored); reflexivity.
Qed.

Lemma scan_rows_spec columns rows : forall acc results,
  scan_rows columns rows acc = Ok results ->
  exists valuess, rows = Ok <$> valuess /\ results = acc ++ (scan_row columns <$> valuess).
Proof.
  induction rows as [|[values|err] rows IH]; intros acc results H; cbn [scan_rows] in H.
  - inversion H; subst. exists []. split; [reflexivity | symmetry; apply app_nil_r].
  - destruct (IH _ _ H) as (valuess & -> & ->).
    exists (values :: valuess). split; [reflexivity|].
    rewrite <- app_assoc. reflexivity.
  - discriminate.
Qed.

(** The same column name twice: the second column is NULL and its key
    is in the row all the same, with the value of the first. *)
Lemma null_column_with_a_shared_name_is_kept :
  exists row,
    (Execute fixtures.counting_env fixtures.example_db
       {[ "query" := JString "SELECT 1 AS x, NULL AS x FROM users" ]} world0).1 = Ok [row]
    /\ Rows_Columns fixtures.same_name_twice !! 1%nat = Some "x"
    /\ Rows_Scan fixtures.same_name_twice = [Ok [SqlInt64 1; SqlNull]]
    /\ row !! "x" = Some (SqlInt64 1).
Proof. eexists. repeat split. Qed.

(** C10, for result sets whose column names are distinct: Execute
    returns one map per scanned row; the key of a column is absent when
    its value is NULL and holds a string when its value is a byte slice;
    no map holds a NULL or a byte slice; and two rows of one result can
    have different keys. *)
Theorem Execute_rows :
  (forall (env : Env) (tool : DatabaseTool) (params : gmap string json) (w w' : World)
          (results : list (gmap string sqlvalue)),
     Execute env tool params w = (Ok results, w') ->
     exists query rows valuess,
       params !! "query" = Some (JString query)
       /\ db_Query env w query = Ok rows
       /\ Rows_Scan rows = Ok <$> valuess
       /\ results = scan_row (Rows_Columns rows) <$> valuess
       /\ (forall row col val, row ∈ results -> row !! col = Some val -> is_stored val)
       /\ (NoDup (Rows_Columns rows) ->
           forall values i col,
             values ∈ valuess -> Rows_Columns rows !! i = Some col ->
             (values !! i = Some SqlNull -> scan_row (Rows_Columns rows) values !! col = None)
             /\ (forall b, values !! i = Some (SqlBytes b) ->
                 scan_row (Rows_Columns rows) values !! col = Some (SqlString b))
             /\ scan_row (Rows_Columns rows) values !! col = values !! i ≫= stored))
  /\ (exists row1 row2,
        (Execute fixtures.counting_env fixtures.example_db
           {[ "query" := JString "SELECT name, email FROM users" ]} world0).1
        = Ok [row1; row2]
        /\ dom row1 = ({[ "name"; "email" ]} : gset string)
        /\ dom row2 = ({[ "name" ]} : gset string)).
Proof.
  split.
  - intros env tool params w w' results H. unfold Execute in H.
    destruct (params !! "query") as [[| | |query| |]|] eqn:Hq; try discriminate.
    destruct (validateQuery _ _ _); [discriminate|].
    unfold bind, Query in H. destruct (db_Query env w query) as [rows|err] eqn:Hrows;
      [|discriminate].
    unfold ret in H. inversion H as [[Hscan Hw]]. clear H.
    destruct (scan_rows_spec _ _ _ _ Hscan) as (valuess & Hvs & Hres).
    exists query, rows, valuess.
    split; [reflexivity|]. split; [exact Hrows|]. split; [exact Hvs|].
    split; [exact Hres|]. split.
    + intros row col val Hin Hlookup. rewrite Hres in Hin. cbn in Hin.
      apply list_elem_of_fmap in Hin as (values & -> & _).
      exact (scan_row_stored _ _ _ _ Hlookup).
    + intros Hnodup values i col _ Hi.
      pose proof (scan_row_at _ values _ _ Hnodup Hi) as Hat.
      split; [|split].
      * intros Hnull. rewrite Hat, Hnull. reflexivity.
      * intros b Hb. rewrite Hat, Hb. reflexivity.
      * exact Hat.
  - eexists _, _. split; [reflexivity|]. split; vm_compute; reflexivity.
Qed.

(** On the users of the example database: the NULL e-mail of the second
    row is absent, the e-mail of the first, a byte slice, is a string. *)
Lemma Execute_rows_witness :
  scan_row ["name"; "email"] [SqlString "Dave Null"; SqlNull] !! "email" = None
  /\ scan_row ["name"; "email"] [SqlString "Alice Smith"; SqlBytes "alice@example.com"]
       !! "email" = Some (SqlString "alice@example.com").
Proof.
  assert (Hrun : exists results w',
             Execute fixtures.counting_env fixtures.example_db
               {[ "query" := JString "SELECT name, email FROM users" ]} world0
             = (Ok results, w')) by (eexists _, _; reflexivity).
  destruct Hrun as (results & w' & Hrun).
  destruct (proj1 Execute_rows _ _ _ _ _ _ Hrun)
    as (query & rows & valuess & Hq & Hrows & Hvs & _ & _ & Hcols).
  rewrite lookup_singleton_eq in Hq. inversion Hq; subst query. clear Hq.
  cbn in Hrows. inversion Hrows; subst rows. clear Hrows.
  clear Hrun. cbn in Hvs.
  destruct valuess as [|v1 [|v2 [|v3 valuess]]]; try discriminate Hvs.
  inversion Hvs; subst v1 v2. clear Hvs.
  assert (Hnodup : NoDup (Rows_Columns fixtures.users_emails)).
  { cbn. apply NoDup_cons. split; [|apply NoDup_singleton].
    intros H. apply list_elem_of_singleton in H. discriminate H. }
  split.
  - destruct (Hcols Hnodup [SqlString "Dave Null"; SqlNull] 1%nat "email")
      as (Hnull & _ & _); [right; left | reflexivity |].
    apply Hnull. reflexivity.
  - destruct (Hcols Hnodup [SqlString "Alice Smith"; SqlBytes "alice@example.com"]
                1%nat "email") as (_ & Hbytes & _); [left | reflexivity |].
    apply Hbytes. reflexivity.
Defined.

(** *** The background reader *)
Section Reader.
Import mcpclient.








End Reader.

(** *** Teardown of a session *)

(** When closing stdin fails, Close returns that error: stdout is not
    closed, the process is neither killed nor waited for, and the errors
    those steps would have met are not reported. *)
Lemma close_stops_at_the_first_error :
  let p := {| mcpclient.stdin_Close := Some (errorString "file already closed");
              mcpclient.stdout_Close := Some (errorString "file already closed");
              mcpclient.Process_Kill := None;
              mcpclient.cmd_Wait := None |} in
  mcpclient.Close p =
  ([mcpclient.CloseStdin],
   Some (wrapError "failed to close stdin: file already closed"
           (errorString "file already closed"))).
Proof. reflexivity. Qed.

Ltac absurd_member H :=
  repeat (apply elem_of_cons in H as [H|H]; [discriminate H|]);
  apply elem_of_nil in H; contradiction.

(** C6, as the code has it: Close runs closing stdin, closing stdout,
    killing and waiting in this order and returns at the first step that
    fails, with the error of that step; a step is attempted exactly when
    every step before it succeeded, and nil is returned exactly when all
    four succeeded. *)
Theorem Close_returns_at_first_failure (p : mcpclient.process) :
  let steps := (mcpclient.Close p).1 in
  let err := (mcpclient.Close p).2 in
  (exists n, (1 <= n <= 4)%nat /\ steps = take n mcpclient.teardown_order)
  /\ (mcpclient.CloseStdout ∈ steps <-> mcpclient.stdin_Close p = None)
  /\ (mcpclient.Kill ∈ steps <->
      mcpclient.stdin_Close p = None /\ mcpclient.stdout_Close p = None)
  /\ (mcpclient.Wait ∈ steps <->
      mcpclient.stdin_Close p = None /\ mcpclient.stdout_Close p = None
      /\ mcpclient.Process_Kill p = None)
  /\ (err = None <->
      mcpclient.stdin_Close p = None /\ mcpclient.stdout_Close p = None
      /\ mcpclient.Process_Kill p = None /\ mcpclient.cmd_Wait p = None)
  /\ (forall e, mcpclient.stdin_Close p = Some e ->
      err = Some (Errorf_w "failed to close stdin: " e))
  /\ (forall e, mcpclient.stdin_Close p = None -> mcpclient.stdout_Close p = Some e ->
      err = Some (Errorf_w "failed to close stdout: " e))
  /\ (forall e, mcpclient.stdin_Close p = None -> mcpclient.stdout_Close p = None ->
      mcpclient.Process_Kill p = Some e ->
      err = Some (Errorf_w "failed to kill process: " e))
  /\ (forall e, mcpclient.stdin_Close p = None -> mcpclient.stdout_Close p = None ->
      mcpclient.Process_Kill p = None -> mcpclient.cmd_Wait p = Some e ->
      err = Some (Errorf_w "failed to wait for process: " e)).
Proof.
  destruct p as [[e1|] [e2|] [e3|] [e4|]]; cbn;
    (split; [first [exists 1%nat; split; [lia|reflexivity]
                   | exists 2%nat; split; [lia|reflexivity]
                   | exists 3%nat; split; [lia|reflexivity]
                   | exists 4%nat; split; [lia|reflexivity]]|]);
    repeat split; intros;
    repeat match goal with H : _ /\ _ |- _ => destruct H end;
    try congruence; try solve [repeat constructor];
    match goal with H : _ ∈ _ |- _ => absurd_member H end.
Qed.

(** A process that cannot be killed: both streams are closed, the kill
    is attempted, the wait is not. *)
Lemma Close_returns_at_first_failure_witness :
  let p := {| mcpclient.stdin_Close := None; mcpclient.stdout_Close := None;
              mcpclient.Process_Kill := Some (errorString "os: process already finished");
              mcpclient.cmd_Wait := None |} in
  (mcpclient.Close p).2
  = Some (Errorf_w "failed to kill process: " (errorString "os: process already finished"))
  /\ mcpclient.Kill ∈ (mcpclient.Close p).1.
Proof.
  cbv zeta.
  destruct (Close_returns_at_first_failure
              {| mcpclient.stdin_Close := None; mcpclient.stdout_Close := None;
                 mcpclient.Process_Kill := Some (errorString "os: process already finished");
                 mcpclient.cmd_Wait := None |})
    as (_ & _ & Hkill & _ & _ & _ & _ & Herr & _).
  split.
  - apply Herr; reflexivity.
  - apply Hkill. split; reflexivity.
Defined.

(** *** Callers of one session *)
Section Callers.
Import session.

(** Two callers: both write their request before either response is
    read, so two requests are outstanding; the provider answers the
    first, and the caller of the second takes that answer. *)
Lemma concurrent_callers_cross_responses :
  exists s s' c0 c1 c1',
    run [Call 0; Call 0; Call 0; Call 0; Call 1; Call 1; Call 1; Call 1] (init [1; 1])%nat = Some s
    /\ callers s = [c0; c1]
    /\ at_ c0 = Waiting 2 /\ at_ c1 = Waiting 3
    /\ outstanding s = 2%nat
    /\ run [Provider; Reader; Call 1] s = Some s'
    /\ callers s' = [c0; c1']
    /\ received c1' = [(3, Some 2)].
Proof.
  do 5 eexists.
  split; [vm_compute; reflexivity|]. split; [reflexivity|].
  split; [reflexivity|]. split; [reflexivity|].
  split; [vm_compute; reflexivity|].
  split; [vm_compute; reflexivity|]. split; reflexivity.
Qed.

Lemma lookup_insert_caller (l : list caller) tid tid' c c' :
  <[tid := c]> l !! tid' = Some c' ->
  (tid' = tid /\ c' = c) \/ (tid' <> tid /\ l !! tid' = Some c').
Proof.
  intros H. apply list_lookup_insert_Some in H as [(-> & -> & _)|[Hne H]]; [left|right]; auto.
Qed.

Lemma call_step_lock_inv tid s s' :
  lock_inv s -> call_step tid s = Some s' -> lock_inv s'.
Proof.
  unfold call_step. intros Hinv Hstep.
  destruct (callers s !! tid) as [c|] eqn:Hc; [|discriminate].
  pose proof (Hinv tid c Hc) as Hown.
  destruct c as [p n rs]. cbn [at_ calls_left received] in *.
  destruct p as [|id|id|id|id]; unfold in_sendRequest in Hown; cbn [at_] in Hown.
  - destruct n as [|n]; [discriminate|]. inversion Hstep; subst s'; clear Hstep.
    intros tid' c' Hlookup; cbn [callers mu] in *.
    apply lookup_insert_caller in Hlookup as [[-> ->]|[Hne Hlookup]];
      [exact Hown | exact (Hinv tid' c' Hlookup)].
  - destruct (mu s) as [holder|] eqn:Hmu; [discriminate|].
    inversion Hstep; subst s'; clear Hstep.
    intros tid' c' Hlookup; cbn [callers mu] in *.
    apply lookup_insert_caller in Hlookup as [[-> ->]|[Hne Hlookup]].
    + split; reflexivity.
    + pose proof (Hinv tid' c' Hlookup) as H. rewrite Hmu in H.
      split; [intros Hin; apply H in Hin; discriminate | intros Heq; congruence].
  - inversion Hstep; subst s'; clear Hstep.
    intros tid' c' Hlookup; cbn [callers mu] in *.
    apply lookup_insert_caller in Hlookup as [[-> ->]|[Hne Hlookup]];
      [exact Hown | exact (Hinv tid' c' Hlookup)].
  - inversion Hstep; subst s'; clear Hstep.
    intros tid' c' Hlookup; cbn [callers mu] in *.
    apply lookup_insert_caller in Hlookup as [[-> ->]|[Hne Hlookup]].
    + split; discriminate.
    + pose proof (Hinv tid' c' Hlookup) as H.
      assert (Hmu : mu s = Some tid) by (apply Hown; reflexivity).
      rewrite Hmu in H.
      split; [intros Hin; apply H in Hin; congruence | discriminate].
  - destruct (respChan s) as [|resp buffer]; [discriminate|].
    inversion Hstep; subst s'; clear Hstep.
    intros tid' c' Hlookup; cbn [callers mu] in *.
    apply lookup_insert_caller in Hlookup as [[-> ->]|[Hne Hlookup]];
      [exact Hown | exact (Hinv tid' c' Hlookup)].
Qed.

Lemma step_lock_inv a s s' : lock_inv s -> step a s = Some s' -> lock_inv s'.
Proof.
  intros Hinv Hstep. destruct a as [tid|tid| |]; cbn [step] in Hstep.
  - exact (call_step_lock_inv tid s s' Hinv Hstep).
  - unfold timeout_step in Hstep.
    destruct (callers s !! tid) as [c|] eqn:Hc; [|discriminate].
    pose proof (Hinv tid c Hc) as Hown.
    destruct c as [p n rs]. cbn [at_] in *. destruct p; try discriminate.
    inversion Hstep; subst s'; clear Hstep.
    intros tid' c' Hlookup; cbn [set_caller callers mu] in *.
    apply lookup_insert_caller in Hlookup as [[-> ->]|[Hne Hlookup]];
      [exact Hown | exact (Hinv tid' c' Hlookup)].
  - unfold provider_step in Hstep. destruct (stdin s); [discriminate|].
    inversion Hstep; subst s'. exact Hinv.
  - unfold reader_step in Hstep. destruct (stdout s); [discriminate|].
    destruct (respChan s); [|discriminate].
    inversion Hstep; subst s'. exact Hinv.
Qed.

Lemma run_lock_inv schedule : forall s s',
  lock_inv s -> run schedule s = Some s' -> lock_inv s'.
Proof.
  induction schedule as [|a schedule IH]; intros s s' Hinv Hrun; cbn [run] in Hrun.
  - inversion Hrun; subst. exact Hinv.
  - destruct (step a s) as [s1|] eqn:Hstep; [|discriminate].
    exact (IH s1 s' (step_lock_inv a s s1 Hinv Hstep) Hrun).
Qed.

Lemma init_lock_inv calls : lock_inv (init calls).
Proof.
  intros tid c Hlookup. cbn [init callers mu] in *.
  apply list_lookup_fmap_Some in Hlookup as (n & -> & _).
  split; discriminate.
Qed.

Lemma in_flight_empty s :
  in_flight s = [] -> respChan s = [] /\ stdout s = [] /\ stdin s = [].
Proof.
  unfold in_flight. intros H.
  apply app_eq_nil in H as [H1 H]. apply app_eq_nil in H as [H2 H3]. auto.
Qed.

Lemma own_responses_finish c id :
  own_responses c -> own_responses (finish c id (Some id)).
Proof.
  unfold own_responses, finish. cbn [received]. intros H.
  apply Forall_app. split; [exact H|]. repeat constructor.
Qed.

Lemma call_step_seq_inv tid s s' :
  seq_inv s -> call_step tid s = Some s' -> seq_inv s'.
Proof.
  intros (c & Hcallers & Hown & Hflight) Hstep. unfold call_step in Hstep.
  rewrite Hcallers in Hstep.
  destruct tid as [|tid]; [|destruct tid; discriminate].
  cbn [lookup list_lookup] in Hstep.
  destruct c as [p n rs]. cbn [at_ calls_left received expected_in_flight] in *.
  destruct p as [|id|id|id|id].
  - destruct n as [|n]; [discriminate|]. inversion Hstep; subst s'; clear Hstep.
    eexists. split; [reflexivity|]. split; [exact Hown | exact Hflight].
  - destruct (mu s); [discriminate|]. inversion Hstep; subst s'; clear Hstep.
    eexists. split; [reflexivity|]. split; [exact Hown | exact Hflight].
  - inversion Hstep; subst s'; clear Hstep.
    eexists. split; [reflexivity|]. split; [exact Hown|].
    apply in_flight_empty in Hflight as (H1 & H2 & H3).
    unfold in_flight. cbn [respChan stdout stdin move at_ expected_in_flight].
    rewrite H1, H2, H3. reflexivity.
  - inversion Hstep; subst s'; clear Hstep.
    eexists. split; [reflexivity|]. split; [exact Hown | exact Hflight].
  - destruct (respChan s) as [|resp buffer] eqn:Hchan; [discriminate|].
    inversion Hstep; subst s'; clear Hstep.
    unfold in_flight in Hflight. rewrite Hchan in Hflight.
    inversion Hflight as [[Hresp Hrest]]. subst resp.
    eexists. split; [reflexivity|]. split.
    + apply (own_responses_finish {| at_ := Waiting id; calls_left := n; received := rs |}).
      exact Hown.
    + unfold in_flight. cbn [respChan stdout stdin finish at_ expected_in_flight].
      exact Hrest.
Qed.

Lemma step_seq_inv a s s' :
  (forall tid, a <> Timeout tid) -> seq_inv s -> step a s = Some s' -> seq_inv s'.
Proof.
  intros Hno Hinv Hstep. destruct a as [tid|tid| |]; cbn [step] in Hstep.
  - exact (call_step_seq_inv tid s s' Hinv Hstep).
  - exfalso. exact (Hno tid eq_refl).
  - destruct Hinv as (c & Hcallers & Hown & Hflight).
    unfold provider_step in Hstep. destruct (stdin s) as [|id requests] eqn:Hin; [discriminate|].
    inversion Hstep; subst s'; clear Hstep.
    exists c. split; [exact Hcallers|]. split; [exact Hown|].
    rewrite <- Hflight. unfold in_flight. cbn [respChan stdout stdin]. rewrite Hin.
    rewrite <- app_assoc. reflexivity.
  - destruct Hinv as (c & Hcallers & Hown & Hflight).
    unfold reader_step in Hstep. destruct (stdout s) as [|id responses] eqn:Hout; [discriminate|].
    destruct (respChan s) eqn:Hchan; [|discriminate].
    inversion Hstep; subst s'; clear Hstep.
    exists c. split; [exact Hcallers|]. split; [exact Hown|].
    rewrite <- Hflight. unfold in_flight. cbn [respChan stdout stdin].
    rewrite Hout, Hchan. reflexivity.
Qed.

Lemma run_seq_inv schedule : forall s s',
  no_timeout schedule -> seq_inv s -> run schedule s = Some s' -> seq_inv s'.
Proof.
  induction schedule as [|a schedule IH]; intros s s' Hno Hinv Hrun; cbn [run] in Hrun.
  - inversion Hrun; subst. exact Hinv.
  - destruct (step a s) as [s1|] eqn:Hstep; [|discriminate].
    apply (IH s1 s'); [| |exact Hrun].
    + intros tid Hin. apply (Hno tid). right. exact Hin.
    + apply (step_seq_inv a s s1); [|exact Hinv|exact Hstep].
      intros tid ->. apply (Hno tid). left.
Qed.

Lemma init_seq_inv n : seq_inv (init [n]).
Proof.
  eexists. split; [reflexivity|]. split; [constructor | reflexivity].
Qed.

(** C2, as the code has it.  The mutex covers the write alone: under
    any schedule of any number of callers at most one caller is inside
    sendRequest.  When one caller invokes the operations one after the
    other and no wait times out, at most one request is outstanding, at
    most one message is in transit, and every operation takes the
    response to its own request. *)
Theorem session_serialization :
  (forall (calls : list nat) (schedule : list action) (s : state),
     run schedule (init calls) = Some s ->
     forall i j ci cj,
       callers s !! i = Some ci -> callers s !! j = Some cj ->
       in_sendRequest ci = true -> in_sendRequest cj = true -> i = j)
  /\
  (forall (n : nat) (schedule : list action) (s : state),
     no_timeout schedule ->
     run schedule (init [n]) = Some s ->
     (outstanding s <= 1)%nat /\ (length (in_flight s) <= 1)%nat
     /\ forall c, callers s !! 0%nat = Some c -> own_responses c).
Proof.
  split.
  - intros calls schedule s Hrun i j ci cj Hi Hj Hini Hinj.
    pose proof (run_lock_inv schedule _ _ (init_lock_inv calls) Hrun) as Hinv.
    apply (Hinv i ci Hi) in Hini. apply (Hinv j cj Hj) in Hinj. congruence.
  - intros n schedule s Hno Hrun.
    destruct (run_seq_inv schedule _ _ Hno (init_seq_inv n) Hrun)
      as (c & Hcallers & Hown & Hflight).
    split; [|split].
    + unfold outstanding. rewrite Hcallers. cbn [filter list_filter].
      destruct (decide _); cbn; lia.
    + rewrite Hflight. destruct (at_ c); cbn; lia.
    + intros c' Hc'. rewrite Hcallers in Hc'. inversion Hc'; subst. exact Hown.
Qed.

(** One caller, two operations, run to their end: the requests 2 and 3
    are answered by the responses 2 and 3. *)
Lemma session_serialization_witness :
  exists s c,
    run [Call 0; Call 0; Call 0; Call 0; Provider; Reader; Call 0;
         Call 0; Call 0; Call 0; Call 0; Provider; Reader; Call 0]%nat (init [2%nat]) = Some s
    /\ callers s = [c]
    /\ received c = [(2, Some 2); (3, Some 3)]
    /\ own_responses c
    /\ (outstanding s <= 1)%nat.
Proof.
  do 2 eexists. split; [vm_compute; reflexivity|].
  split; [reflexivity|]. split; [reflexivity|].
  match goal with |- own_responses ?c /\ (outstanding ?s <= 1)%nat =>
    destruct (proj2 session_serialization 2%nat
                [Call 0; Call 0; Call 0; Call 0; Provider; Reader; Call 0;
                 Call 0; Call 0; Call 0; Call 0; Provider; Reader; Call 0]%nat s)
      as (Hout & _ & Hown)
  end.
  - intros tid Hin. repeat (apply elem_of_cons in Hin as [Hin|Hin]; [discriminate Hin|]).
    apply elem_of_nil in Hin. exact Hin.
  - vm_compute. reflexivity.
  - split; [apply Hown; reflexivity | exact Hout].
Defined.

End Callers.

(** ** Further properties of the code *)

(** *** The registry key [server/tool] *)

Lemma HasPrefix_slash c s : strings.HasPrefix (String c s) "/" = Stdlib.Strings.Ascii.eqb c "/".
Proof.
  cbn [strings.HasPrefix]. destruct (Stdlib.Strings.Ascii.eqb c "/"); [|reflexivity].
  destruct s; reflexivity.
Qed.

Lemma Index_slash_cons c s :
  strings.Index (String c s) "/" =
  if Stdlib.Strings.Ascii.eqb c "/" then Some O else S <$> strings.Index s "/".
Proof.
  change (strings.Index (String c s) "/")
    with (if strings.HasPrefix (String c s) "/" then Some O
          else S <$> strings.Index s "/").
  rewrite HasPrefix_slash. reflexivity.
Qed.

(** Where the first slash of [server/tool] is. *)
Lemma Index_slash_join server tool :
  strings.Index (server +:+ "/" +:+ tool) "/" =
  match strings.Index server "/" with
  | Some k => Some k
  | None => Some (String.length server)
  end.
Proof.
  induction server as [|c server IH].
  - change ("" +:+ "/" +:+ tool) with (String "/" tool).
    rewrite Index_slash_cons. reflexivity.
  - change (String c server +:+ "/" +:+ tool) with (String c (server +:+ "/" +:+ tool)).
    rewrite !Index_slash_cons. destruct (Stdlib.Strings.Ascii.eqb c "/"); [reflexivity|].
    rewrite IH. destruct (strings.Index server "/"); reflexivity.
Qed.

Lemma Index_slash_bound s k : strings.Index s "/" = Some k -> (k < String.length s)%nat.
Proof.
  revert k. induction s as [|c s IH]; intros k H.
  - discriminate.
  - rewrite Index_slash_cons in H. destruct (Stdlib.Strings.Ascii.eqb c "/").
    + inversion H. cbn. lia.
    + destruct (strings.Index s "/") as [k'|]; [|discriminate].
      inversion H. specialize (IH k' eq_refl). cbn. lia.
Qed.

Lemma string_take_app (a t : string) : string_take (String.length a) (a +:+ t) = a.
Proof.
  induction a as [|c a IH]; [destruct t; reflexivity|].
  change (String c a +:+ t) with (String c (a +:+ t)). cbn. rewrite IH. reflexivity.
Qed.

Lemma string_drop_app_plus (a t : string) n :
  string_drop (String.length a + n) (a +:+ t) = string_drop n t.
Proof.
  induction a as [|c a IH]; [reflexivity|].
  change (String c a +:+ t) with (String c (a +:+ t)). cbn. exact IH.
Qed.

Lemma string_length_app (a t : string) :
  String.length (a +:+ t) = (String.length a + String.length t)%nat.
Proof.
  induction a as [|c a IH]; [reflexivity|].
  change (String c a +:+ t) with (String c (a +:+ t)). cbn. rewrite IH. reflexivity.
Qed.

Lemma string_take_length n s :
  (n <= String.length s)%nat -> String.length (string_take n s) = n.
Proof.
  revert s. induction n as [|n IH]; intros s H; [reflexivity|].
  destruct s as [|c s]; cbn in *; [lia|]. rewrite IH by lia. reflexivity.
Qed.

Lemma SplitN_joined server tool :
  strings.Index server "/" = None ->
  strings.SplitN (server +:+ "/" +:+ tool) "/" 2 = [server; tool].
Proof.
  intros Hk. cbn [strings.SplitN]. rewrite Index_slash_join, Hk.
  rewrite string_take_app, string_drop_app_plus. reflexivity.
Qed.

Lemma SplitN_joined_slash server tool k :
  strings.Index server "/" = Some k ->
  strings.SplitN (server +:+ "/" +:+ tool) "/" 2 <> [server; tool].
Proof.
  intros Hk H. cbn [strings.SplitN] in H. rewrite Index_slash_join, Hk in H.
  inversion H as [[Htake Hdrop]].
  pose proof (Index_slash_bound server k Hk) as Hlt.
  assert (Hlen : String.length (string_take k (server +:+ "/" +:+ tool)) = k).
  { apply string_take_length. rewrite string_length_app. lia. }
  rewrite Htake in Hlen. lia.
Qed.

(** X1: the value [server + "/" + tool] that Initialize stores in the
    registry is split back by handleToolCalls into exactly [server] and
    [tool] if and only if the server name contains no slash; a slash in
    the server name moves the cut. *)
Theorem registry_key_roundtrip (server tool : string) :
  strings.SplitN (server +:+ "/" +:+ tool) "/" 2 = [server; tool]
  <-> strings.Index server "/" = None.
Proof.
  split; [|apply SplitN_joined].
  intros H. destruct (strings.Index server "/") as [k|] eqn:Hk; [|reflexivity].
  exfalso. exact (SplitN_joined_slash server tool k Hk H).
Qed.

(** A provider named [acme/prices]: its tool [quote] is looked for on a
    server [acme] under the name [prices/quote]. *)
Example registry_key_with_a_slash :
  strings.SplitN ("acme/prices" +:+ "/" +:+ "quote") "/" 2 = ["acme"; "prices/quote"].
Proof. reflexivity. Qed.

(** *** Registration *)

Lemma register_tools_snoc server discovered tool b :
  register_tools server (discovered ++ [tool]) b
  = register_tool server (register_tools server discovered b) tool.
Proof. unfold register_tools. rewrite fold_left_app. reflexivity. Qed.

Lemma register_tools_toolMap server discovered b n :
  toolMap (register_tools server discovered b) !! n =
    match last (filter (fun tool => sanitizeToolName (Tool_Name tool) = n) discovered) with
    | Some tool => Some (server +:+ "/" +:+ Tool_Name tool)
    | None => toolMap b !! n
    end.
Proof.
  induction discovered as [|tool discovered IH] using rev_ind; [reflexivity|].
  rewrite register_tools_snoc. cbn [register_tool toolMap].
  rewrite filter_app, filter_cons, filter_nil.
  destruct (decide (sanitizeToolName (Tool_Name tool) = n)) as [<-|Hne].
  - rewrite last_snoc, lookup_insert_eq. reflexivity.
  - rewrite app_nil_r, lookup_insert_ne by exact Hne. exact IH.
Qed.

Lemma register_tools_tools server discovered b :
  tools (register_tools server discovered b) = tools b ++ discovered.
Proof.
  induction discovered as [|tool discovered IH] using rev_ind; [now rewrite app_nil_r|].
  rewrite register_tools_snoc. cbn [register_tool tools]. rewrite IH, app_assoc. reflexivity.
Qed.

Lemma register_tools_serverMap server discovered b :
  serverMap (register_tools server discovered b) = serverMap b.
Proof.
  induction discovered as [|tool discovered IH] using rev_ind; [reflexivity|].
  rewrite register_tools_snoc. exact IH.
Qed.

(** X2: the registration loop of Initialize is last-registered-wins:
    after the tools of a server are registered, a sanitized name maps to
    the last of them that sanitizes to it, and to what it mapped to
    before when there is none; every discovered tool is appended to the
    tools handed to the model, shadowed or not, and the sessions are
    untouched. *)
Theorem register_tools_last_wins (server : string) (discovered : list Tool) (b : Bridge)
    (n : string) :
  toolMap (register_tools server discovered b) !! n =
    match last (filter (fun tool => sanitizeToolName (Tool_Name tool) = n) discovered) with
    | Some tool => Some (server +:+ "/" +:+ Tool_Name tool)
    | None => toolMap b !! n
    end
  /\ tools (register_tools server discovered b) = tools b ++ discovered
  /\ serverMap (register_tools server discovered b) = serverMap b.
Proof.
  split; [apply register_tools_toolMap|].
  split; [apply register_tools_tools | apply register_tools_serverMap].
Qed.

(** Two tools of one provider that differ in a hyphen: both are handed
    to the model, the registry knows the second. *)
Example get_ticker_collision :
  let b := register_tools "market"
             [ {| Tool_Name := "get-ticker"; Tool_Description := ""; Tool_InputSchema := JNull |};
               {| Tool_Name := "get_ticker"; Tool_Description := ""; Tool_InputSchema := JNull |} ]
             (fixtures.bridge_of fixtures.example_db) in
  toolMap b !! "get_ticker" = Some "market/get_ticker" /\ length (tools b) = 3%nat.
Proof. split; reflexivity. Qed.

(** *** Initialize, server by server *)





(** *** Every advertised tool can be dispatched *)








(** *** What reaches the database *)

Lemma validateQuery_None t tool query :
  validateQuery t tool query = None <-> validated t tool query.
Proof.
  unfold validateQuery, validated, mentions_table.
  destruct (existsb _ forbidden_words); [split; [discriminate | intros [H _]; discriminate]|].
  destruct (existsb _ _); split; try discriminate; auto.
  intros [_ H]. discriminate.
Qed.

Lemma Execute_db_log env tool params w :
  exists qs,
    db_log (Execute env tool params w).2 = db_log w ++ qs
    /\ Forall (validated (case_tables env) tool) qs.
Proof.
  unfold Execute.
  destruct (params !! "query") as [[| | |query| |]|];
    try (exists []; split; [symmetry; apply app_nil_r | constructor]).
  destruct (validateQuery (case_tables env) tool query) eqn:Hvalid;
    [exists []; split; [symmetry; apply app_nil_r | constructor]|].
  apply validateQuery_None in Hvalid.
  exists [query]. split; [|constructor; [exact Hvalid | constructor]].
  unfold bind, Query. destruct (db_Query env w query); reflexivity.
Qed.

Lemma handleDatabaseTool_db_log env b call w :
  exists qs,
    db_log (handleDatabaseTool env b call w).2 = db_log w ++ qs
    /\ Forall (validated (case_tables env) (dbTool b)) qs.
Proof.
  unfold handleDatabaseTool.
  destruct (Function_Arguments call !! "query") as [[| | |query| |]|];
    try (exists []; split; [symmetry; apply app_nil_r | constructor]).
  unfold bind.
  destruct (Execute_db_log env (dbTool b) {["query" := JString query]} w) as (qs & Hlog & Hqs).
  exists qs. split; [|exact Hqs].
  destruct (Execute env (dbTool b) _ w) as [[rows|err] w']; exact Hlog.
Qed.

Lemma handleToolCalls_db_log env b toolCalls : forall results w,
  exists qs,
    db_log (handleToolCalls env b toolCalls results w).2 = db_log w ++ qs
    /\ Forall (validated (case_tables env) (dbTool b)) qs.
Proof.
  induction toolCalls as [|call toolCalls IH]; intros results w; cbn [handleToolCalls].
  - exists []. split; [symmetry; apply app_nil_r | constructor].
  - destruct (toolMap b !! Function_Name call) as [mcpName|];
      [|exists []; split; [symmetry; apply app_nil_r | constructor]].
    destruct (String.eqb mcpName "query_database").
    + unfold bind.
      destruct (handleDatabaseTool_db_log env b call w) as (qs & Hlog & Hqs).
      destruct (handleDatabaseTool env b call w) as [[res|err] w']; cbn [snd] in Hlog;
        [|exists qs; auto].
      destruct (IH (results ++ [res]) w') as (qs' & Hlog' & Hqs').
      exists (qs ++ qs'). split; [|apply Forall_app; auto].
      rewrite Hlog', Hlog, app_assoc. reflexivity.
    + destruct (strings.SplitN mcpName "/" 2) as [|serverName [|toolName [|]]];
        try (exists []; split; [symmetry; apply app_nil_r | constructor]).
      destruct (serverMap b !! serverName) as [client|];
        [|exists []; split; [symmetry; apply app_nil_r | constructor]].
      unfold bind, CallTool.
      destruct (client_CallTool env w client _) as [res|err];
        [|exists []; split; [symmetry; apply app_nil_r | constructor]].
      match goal with |- context [handleToolCalls _ _ _ ?r ?w1] =>
        destruct (IH r w1) as (qs' & Hlog' & Hqs') end.
      exists qs'. split; [exact Hlog' | exact Hqs'].
Qed.

Lemma single_handleToolCalls_db_log env b toolCalls : forall results w,
  exists qs,
    db_log (single.handleToolCalls env b toolCalls results w).2 = db_log w ++ qs
    /\ Forall (validated (case_tables env) (dbTool b)) qs.
Proof.
  induction toolCalls as [|call toolCalls IH]; intros results w; cbn [single.handleToolCalls].
  - exists []. split; [symmetry; apply app_nil_r | constructor].
  - destruct (toolMap b !! Function_Name call) as [mcpName|];
      [|exists []; split; [symmetry; apply app_nil_r | constructor]].
    destruct (String.eqb mcpName "query_database");
      [|exists []; split; [symmetry; apply app_nil_r | constructor]].
    destruct (Function_Arguments call !! "query") as [[| | |query| |]|];
      try (exists []; split; [symmetry; apply app_nil_r | constructor]).
    unfold bind.
    destruct (Execute_db_log env (dbTool b) {["query" := JString query]} w) as (qs & Hlog & Hqs).
    destruct (Execute env (dbTool b) _ w) as [[rows|err] w']; cbn [snd] in Hlog;
      [|exists qs; auto].
    match goal with |- context [single.handleToolCalls _ _ _ ?r ?w1] =>
      destruct (IH r w1) as (qs' & Hlog' & Hqs') end.
    exists (qs ++ qs'). split; [|apply Forall_app; auto].
    rewrite Hlog', Hlog, app_assoc. reflexivity.
Qed.

Lemma retry_loop_db_log env msg left : forall backoff err w,
  db_log (retry_loop env msg left backoff err w).2 = db_log w.
Proof.
  induction left as [|left IH]; intros backoff err w; [reflexivity|].
  cbn [retry_loop]. unfold bind, generateLLMResponse.
  destruct (llm_GenerateResponse env w msg) as [response|err']; [reflexivity|].
  destruct (negb _); [reflexivity|]. unfold Sleep. rewrite IH. reflexivity.
Qed.

(** X5: only validated queries reach the database.  Whatever the model
    asks for, every query that a dispatch, or a whole ProcessMessage,
    hands to [db.Query] has passed validateQuery: its lower-cased text
    contains none of drop, alter, delete, update, insert and contains
    the lower-cased name of a table of the schema. *)
Theorem only_validated_queries_run (env : Env) (b : Bridge) :
  (forall toolCalls results w,
     exists qs,
       db_log (handleToolCalls env b toolCalls results w).2 = db_log w ++ qs
       /\ Forall (validated (case_tables env) (dbTool b)) qs)
  /\ (forall toolCalls results w,
        exists qs,
          db_log (single.handleToolCalls env b toolCalls results w).2 = db_log w ++ qs
          /\ Forall (validated (case_tables env) (dbTool b)) qs)
  /\ (forall msg w,
        exists qs,
          db_log (ProcessMessage env b msg w).2 = db_log w ++ qs
          /\ Forall (validated (case_tables env) (dbTool b)) qs).
Proof.
  split; [|split].
  - intros. apply handleToolCalls_db_log.
  - intros. apply single_handleToolCalls_db_log.
  - intros msg w. unfold ProcessMessage, ProcessMessage_with, bind.
    pose proof (retry_loop_db_log env msg 3 Second None w) as Hretry.
    destruct (retry_loop env msg 3 Second None w) as [[response|err|[err|]] w1];
      cbn [snd] in Hretry;
      try (exists []; split; [rewrite app_nil_r; exact Hretry | constructor]).
    unfold process_response.
    destruct (ToolCalls response) as [|call calls];
      [exists []; split; [rewrite app_nil_r; exact Hretry | constructor]|].
    unfold bind.
    destruct (handleToolCalls_db_log env b (call :: calls) [] w1) as (qs & Hlog & Hqs).
    exists qs. split; [|exact Hqs]. rewrite <- Hretry.
    destruct (handleToolCalls env b (call :: calls) [] w1) as [[[|first rest]|err] w2];
      exact Hlog.
Qed.

(** A model that asks to delete the users: the query is refused and the
    database is not asked. *)
Example delete_is_not_run :
  (handleToolCalls fixtures.counting_env (fixtures.bridge_of fixtures.example_db)
     [fixtures.query_call "c1" "DELETE FROM users"] [] world0)
  = (Err (wrapError "database query failed: invalid query: only SELECT queries are allowed"
            (wrapError "invalid query: only SELECT queries are allowed"
               (errorString "only SELECT queries are allowed"))),
     world0).
Proof. reflexivity. Qed.

(** The test is on substrings: a SELECT that names the column
    [updated_at] is refused as well. *)
Example updated_at_is_refused :
  validateQuery fixtures.plain_tables fixtures.example_db "SELECT updated_at FROM orders"
  = Some (errorString "only SELECT queries are allowed").
Proof. reflexivity. Qed.

(** *** One result per call *)

Lemma handleToolCalls_ids env b toolCalls : forall results w results' w',
  handleToolCalls env b toolCalls results w = (Ok results', w') ->
  tool_call_id <$> results' = (tool_call_id <$> results) ++ (ID <$> toolCalls).
Proof.
  induction toolCalls as [|call toolCalls IH]; intros results w results' w' H;
    cbn [handleToolCalls] in H.
  - inversion H. cbn. rewrite app_nil_r. reflexivity.
  - destruct (toolMap b !! Function_Name call) as [mcpName|]; [|discriminate].
    destruct (String.eqb mcpName "query_database").
    + unfold bind in H. unfold handleDatabaseTool in H.
      destruct (Function_Arguments call !! "query") as [[| | |query| |]|]; try discriminate.
      unfold bind in H.
      destruct (Execute env (dbTool b) _ w) as [[rows|err] w1]; [|discriminate].
      apply IH in H. rewrite H, fmap_app, <- app_assoc. reflexivity.
    + destruct (strings.SplitN mcpName "/" 2) as [|serverName [|toolName [|]]];
        try discriminate.
      destruct (serverMap b !! serverName) as [client|]; [|discriminate].
      unfold bind, CallTool in H.
      destruct (client_CallTool env w client _) as [res|err]; [|discriminate].
      apply IH in H. rewrite H, fmap_app, <- app_assoc. reflexivity.
Qed.

Lemma single_handleToolCalls_ids env b toolCalls : forall results w results' w',
  single.handleToolCalls env b toolCalls results w = (Ok results', w') ->
  tool_call_id <$> results' = (tool_call_id <$> results) ++ (ID <$> toolCalls).
Proof.
  induction toolCalls as [|call toolCalls IH]; intros results w results' w' H;
    cbn [single.handleToolCalls] in H.
  - inversion H. cbn. rewrite app_nil_r. reflexivity.
  - destruct (toolMap b !! Function_Name call) as [mcpName|]; [|discriminate].
    destruct (String.eqb mcpName "query_database"); [|discriminate].
    destruct (Function_Arguments call !! "query") as [[| | |query| |]|]; try discriminate.
    unfold bind in H.
    destruct (Execute env (dbTool b) _ w) as [[rows|err] w1]; [|discriminate].
    apply IH in H. rewrite H, fmap_app, <- app_assoc. reflexivity.
Qed.

(** X6: a dispatch that succeeds returns one result per request, in the
    order of the requests, each under the id of its request; so the
    first result, which ProcessMessage shows, is that of the first
    request. *)
Theorem dispatch_results_follow_requests (env : Env) (b : Bridge)
    (toolCalls : list ToolCall) (w w' : World) (results : list ToolResult) :
  (handleToolCalls env b toolCalls [] w = (Ok results, w') ->
   tool_call_id <$> results = ID <$> toolCalls)
  /\ (single.handleToolCalls env b toolCalls [] w = (Ok results, w') ->
      tool_call_id <$> results = ID <$> toolCalls).
Proof.
  split; intros H.
  - exact (handleToolCalls_ids _ _ _ _ _ _ _ H).
  - exact (single_handleToolCalls_ids _ _ _ _ _ _ _ H).
Qed.

Lemma dispatch_results_follow_requests_witness :
  exists results w',
    handleToolCalls fixtures.counting_env (fixtures.bridge_of fixtures.example_db)
      [fixtures.query_call "c1" "SELECT COUNT(*) FROM users";
       fixtures.query_call "c2" "SELECT name, email FROM users"] [] world0
    = (Ok results, w')
    /\ tool_call_id <$> results = ["c1"; "c2"].
Proof.
  assert (Hrun : exists results w',
            handleToolCalls fixtures.counting_env (fixtures.bridge_of fixtures.example_db)
              [fixtures.query_call "c1" "SELECT COUNT(*) FROM users";
               fixtures.query_call "c2" "SELECT name, email FROM users"] [] world0
            = (Ok results, w')) by (eexists _, _; reflexivity).
  destruct Hrun as (results & w' & Hrun). exists results, w'. split; [exact Hrun|].
  exact (proj1 (dispatch_results_follow_requests _ _ _ _ _ _) Hrun).
Defined.

(** *** Framing of the provider's output *)

Lemma Index_nl_cons c s :
  strings.Index (String c s) nl =
  if Stdlib.Strings.Ascii.eqb c "010"%char then Some O else S <$> strings.Index s nl.
Proof.
  change (strings.Index (String c s) nl)
    with (if strings.HasPrefix (String c s) nl then Some O
          else S <$> strings.Index s nl).
  cbn [strings.HasPrefix nl]. destruct (Stdlib.Strings.Ascii.eqb c "010"%char); [|reflexivity].
  destruct s; reflexivity.
Qed.

Lemma no_newline_snoc acc c :
  no_newline acc -> Stdlib.Strings.Ascii.eqb c "010"%char = false ->
  no_newline (acc +:+ String c "").
Proof.
  unfold no_newline. intros Hacc Hc. induction acc as [|a acc IH].
  - change ("" +:+ String c "") with (String c ""). rewrite Index_nl_cons, Hc. reflexivity.
  - change (String a acc +:+ String c "") with (String a (acc +:+ String c "")).
    rewrite Index_nl_cons in *. destruct (Stdlib.Strings.Ascii.eqb a "010"%char); [discriminate|].
    destruct (strings.Index acc nl); [discriminate|]. rewrite IH; reflexivity.
Qed.

Lemma string_app_snoc (acc : string) c (data : string) :
  (acc +:+ String c "") +:+ data = acc +:+ String c data.
Proof.
  induction acc as [|a acc IH]; [reflexivity|].
  change (String a acc +:+ String c "") with (String a (acc +:+ String c "")).
  change (String a (acc +:+ String c "") +:+ data)
    with (String a ((acc +:+ String c "") +:+ data)).
  rewrite IH. reflexivity.
Qed.

Lemma string_app_snoc_nl (acc data : string) :
  (acc +:+ nl) +:+ data = acc +:+ String "010"%char data.
Proof. apply string_app_snoc. Qed.

Lemma read_lines_framing data : forall acc,
  no_newline acc ->
  acc +:+ data
    = concat_lines (mcpclient.read_lines data acc).1 +:+ (mcpclient.read_lines data acc).2
  /\ Forall complete_line (mcpclient.read_lines data acc).1
  /\ no_newline (mcpclient.read_lines data acc).2.
Proof.
  induction data as [|c data IH]; intros acc Hacc; cbn [mcpclient.read_lines].
  - cbn [fst snd concat_lines fold_right]. split; [|split; [constructor | exact Hacc]].
    clear. induction acc as [|a acc IH]; [reflexivity|].
    change (String a acc +:+ "") with (String a (acc +:+ "")). rewrite IH. reflexivity.
  - destruct (Stdlib.Strings.Ascii.eqb c "010"%char) eqn:Hc.
    + apply Stdlib.Strings.Ascii.eqb_eq in Hc. subst c.
      destruct (IH "" eq_refl) as (Hdata & Hlines & Hrest).
      destruct (mcpclient.read_lines data "") as [lines rest]. cbn [fst snd] in *.
      split; [|split; [|exact Hrest]].
      * cbn [concat_lines fold_right]. fold (concat_lines lines).
        rewrite string_app_assoc, <- Hdata. rewrite string_app_snoc_nl. reflexivity.
      * constructor; [|exact Hlines]. exists acc. auto.
    + destruct (IH (acc +:+ String c "") (no_newline_snoc acc c Hacc Hc))
        as (Hdata & Hlines & Hrest).
      rewrite string_app_snoc in Hdata. auto.
Qed.

Lemma read_lines_tail data tail : forall acc,
  no_newline tail ->
  mcpclient.read_lines (data +:+ tail) acc
  = ((mcpclient.read_lines data acc).1, (mcpclient.read_lines data acc).2 +:+ tail).
Proof.
  induction data as [|c data IH]; intros acc Htail.
  - change ("" +:+ tail) with tail. cbn [mcpclient.read_lines fst snd].
    revert acc. induction tail as [|t tail IHt]; intros acc.
    + cbn [mcpclient.read_lines]. f_equal.
      clear. induction acc as [|a acc IH]; [reflexivity|].
      change (String a acc +:+ "") with (String a (acc +:+ "")). rewrite <- IH. reflexivity.
    + unfold no_newline in Htail. rewrite Index_nl_cons in Htail.
      cbn [mcpclient.read_lines].
      destruct (Stdlib.Strings.Ascii.eqb t "010"%char); [discriminate|].
      destruct (strings.Index tail nl) eqn:Hidx; [discriminate|].
      rewrite (IHt Hidx). rewrite string_app_snoc. reflexivity.
  - change (String c data +:+ tail) with (String c (data +:+ tail)).
    cbn [mcpclient.read_lines].
    destruct (Stdlib.Strings.Ascii.eqb c "010"%char).
    + rewrite (IH "" Htail).
      destruct (mcpclient.read_lines data "") as [lines rest]. reflexivity.
    + apply IH, Htail.
Qed.

(** X7: the reader cuts the output of the provider at the line feeds:
    the lines it handles, put back one after the other and followed by
    the unterminated rest, are the bytes that were written; every line
    handled ends with its line feed and has no other one.  The rest is
    never handled: whatever follows the last line feed, such as a final
    response without a line feed before the stream ends, changes nothing
    in what the reader logs and delivers. *)
Theorem reader_framing (unmarshal : string -> option (gmap string json)) (data : string) :
  concat_lines (mcpclient.read_lines data "").1 +:+ (mcpclient.read_lines data "").2 = data
  /\ Forall complete_line (mcpclient.read_lines data "").1
  /\ no_newline (mcpclient.read_lines data "").2
  /\ (forall tail read_error,
        no_newline tail ->
        mcpclient.readResponses unmarshal (data +:+ tail) read_error
        = mcpclient.readResponses unmarshal data read_error).
Proof.
  destruct (read_lines_framing data "" eq_refl) as (Hdata & Hlines & Hrest).
  split; [symmetry; exact Hdata|]. split; [exact Hlines|]. split; [exact Hrest|].
  intros tail read_error Htail. unfold mcpclient.readResponses.
  rewrite (read_lines_tail data tail "" Htail). reflexivity.
Qed.

(** A result whose line feed never comes is not delivered. *)
Lemma reader_framing_witness :
  mcpclient.readResponses fixtures.unmarshal
    (fixtures.banner_line
       +:+ fixtures.js "{'jsonrpc':'2.0','id':2,'result':{'tools':[]}}") None
  = [mcpclient.Closed].
Proof.
  destruct (reader_framing fixtures.unmarshal fixtures.banner_line) as (_ & _ & _ & Htail).
  rewrite (Htail (fixtures.js "{'jsonrpc':'2.0','id':2,'result':{'tools':[]}}") None eq_refl).
  reflexivity.
Defined.

(** *** The conversion of the arguments *)

Lemma convertedArgs_lookup (args : gmap string json) k :
  convertedArgs args !! k = convert_argument k <$> args !! k.
Proof.
  unfold convertedArgs. rewrite map_lookup_imap. destruct (args !! k); reflexivity.
Qed.

Lemma convert_argument_idem k v :
  convert_argument k (convert_argument k v) = convert_argument k v.
Proof.
  destruct v; try reflexivity. cbn [convert_argument].
  destruct (_ || _) eqn:Hkey; cbn [convert_argument]; rewrite ?Hkey; reflexivity.
Qed.

(** X8: the arguments sent to a provider have the keys of the arguments
    the model gave; a value is changed only when it is a number under
    the key [limit] or [interval], which becomes the string of its text;
    every other value goes through as it is, and converting twice is
    converting once. *)
Theorem converted_arguments (args : gmap string json) :
  dom (convertedArgs args) = dom args
  /\ (forall k text,
        args !! k = Some (JNumber text) -> k = "limit" \/ k = "interval" ->
        convertedArgs args !! k = Some (JString text))
  /\ (forall k v,
        args !! k = Some v ->
        (k <> "limit" /\ k <> "interval") \/ (forall text, v <> JNumber text) ->
        convertedArgs args !! k = Some v)
  /\ convertedArgs (convertedArgs args) = convertedArgs args.
Proof.
  split; [|split; [|split]].
  - apply set_eq. intros k. rewrite !elem_of_dom, convertedArgs_lookup.
    destruct (args !! k); cbn; split; intros [x Hx]; eauto; discriminate.
  - intros k text Hk Hkey. rewrite convertedArgs_lookup, Hk. cbn.
    destruct Hkey as [-> | ->]; reflexivity.
  - intros k v Hk Hcase. rewrite convertedArgs_lookup, Hk. cbn. f_equal.
    destruct v; try reflexivity. cbn.
    destruct Hcase as [[Hl Hi]|Hnum]; [|exfalso; exact (Hnum text eq_refl)].
    apply String.eqb_neq in Hl, Hi. rewrite Hl, Hi. reflexivity.
  - apply map_eq. intros k. rewrite !convertedArgs_lookup.
    destruct (args !! k); cbn; [|reflexivity]. rewrite convert_argument_idem. reflexivity.
Qed.

Lemma converted_arguments_witness :
  convertedArgs {[ "symbol" := JString "BTCUSDT"; "limit" := JNumber "10";
                   "price" := JNumber "0.5" ]}
  !! "limit" = Some (JString "10")
  /\ convertedArgs {[ "symbol" := JString "BTCUSDT"; "limit" := JNumber "10";
                      "price" := JNumber "0.5" ]}
     !! "price" = Some (JNumber "0.5").
Proof.
  destruct (converted_arguments {[ "symbol" := JString "BTCUSDT"; "limit" := JNumber "10";
                                   "price" := JNumber "0.5" ]})
    as (_ & Hnum & Hother & _).
  split.
  - apply Hnum; [reflexivity | left; reflexivity].
  - apply Hother; [reflexivity | left; split; discriminate].
Defined.

(** *** The layout of the table *)

Lemma colWidth_fold (v : list (gmap string sqlvalue)) col : forall init,
  let width := fold_left
    (fun width row =>
       match row !! col with
       | Some val => Nat.max width (String.length (Sprint_v val))
       | None => width
       end) v init in
  (init <= width)%nat
  /\ (forall row val, row ∈ v -> row !! col = Some val ->
        (String.length (Sprint_v val) <= width)%nat)
  /\ (width = init
      \/ exists row val, row ∈ v /\ row !! col = Some val
                         /\ width = String.length (Sprint_v val)).
Proof.
  induction v as [|row v IH]; intros init; cbn [fold_left].
  - split; [lia|]. split; [|left; reflexivity].
    intros row val Hin. apply elem_of_nil in Hin. contradiction.
  - destruct (row !! col) as [val|] eqn:Hrow.
    + destruct (IH (Nat.max init (String.length (Sprint_v val)))) as (Hinit & Hcells & Hmax).
      cbv zeta in *. split; [lia|]. split.
      * intros row' val' Hin Hlookup. apply elem_of_cons in Hin as [->|Hin].
        -- rewrite Hrow in Hlookup. inversion Hlookup; subst. lia.
        -- exact (Hcells row' val' Hin Hlookup).
      * destruct Hmax as [Hmax|(row' & val' & Hin & Hlookup & Hmax)].
        -- destruct (Nat.max_spec init (String.length (Sprint_v val))) as [[_ Hm]|[_ Hm]].
           ++ right. exists row, val. split; [left|]. split; [exact Hrow | lia].
           ++ left. lia.
        -- right. exists row', val'. split; [right; exact Hin | auto].
    + destruct (IH init) as (Hinit & Hcells & Hmax). cbv zeta in *.
      split; [exact Hinit|]. split.
      * intros row' val' Hin Hlookup. apply elem_of_cons in Hin as [->|Hin].
        -- rewrite Hrow in Hlookup. discriminate.
        -- exact (Hcells row' val' Hin Hlookup).
      * destruct Hmax as [Hmax|(row' & val' & Hin & Hlookup & Hmax)]; [left; exact Hmax|].
        right. exists row', val'. split; [right; exact Hin | auto].
Qed.

(** X9: the width of a column of the table is the greatest length among
    its name and the printed values of its cells: no name and no cell is
    longer than the width of its column, and the width is the length of
    the name or of one of the cells. *)
Theorem column_width_is_the_maximum (v : list (gmap string sqlvalue)) (col : string) :
  (String.length col <= colWidth v col)%nat
  /\ (forall row val, row ∈ v -> row !! col = Some val ->
        (String.length (Sprint_v val) <= colWidth v col)%nat)
  /\ (colWidth v col = String.length col
      \/ exists row val, row ∈ v /\ row !! col = Some val
                         /\ colWidth v col = String.length (Sprint_v val)).
Proof. exact (colWidth_fold v col (String.length col)). Qed.

Lemma column_width_is_the_maximum_witness :
  (String.length (Sprint_v (SqlString "alice@example.com"))
   <= colWidth [ {[ "email" := SqlString "alice@example.com" ]}; ∅ ] "email")%nat.
Proof.
  destruct (column_width_is_the_maximum
              [ {[ "email" := SqlString "alice@example.com" ]}; ∅ ] "email") as (_ & Hcells & _).
  apply (Hcells {[ "email" := SqlString "alice@example.com" ]}); [left | reflexivity].
Defined.

(** X10: the columns of the table that formatDatabaseResult prints are
    the keys that occur in some row, each once, in ascending order. *)
Theorem table_columns (v : list (gmap string sqlvalue)) :
  Sorted String.le (all_columns v)
  /\ NoDup (all_columns v)
  /\ (forall col, col ∈ all_columns v <-> exists row, row ∈ v /\ is_Some (row !! col)).
Proof.
  unfold all_columns, sort_Strings. split; [|split].
  - apply Sorted_merge_sort. apply _.
  - rewrite merge_sort_Permutation. apply NoDup_elements.
  - intros col. rewrite merge_sort_Permutation, elem_of_elements, elem_of_union_list.
    split.
    + intros (X & HX & Hcol). apply list_elem_of_fmap in HX as (row & -> & Hrow).
      exists row. split; [exact Hrow|]. apply elem_of_dom. exact Hcol.
    + intros (row & Hrow & Hsome). exists (dom row). split.
      * apply list_elem_of_fmap. exists row. auto.
      * apply elem_of_dom. exact Hsome.
Qed.

Lemma table_columns_witness :
  "email" ∈ all_columns [ {[ "name" := SqlString "Dave Null" ]};
                          {[ "name" := SqlString "Alice Smith";
                             "email" := SqlString "alice@example.com" ]} ].
Proof.
  apply (table_columns [ {[ "name" := SqlString "Dave Null" ]};
                         {[ "name" := SqlString "Alice Smith";
                            "email" := SqlString "alice@example.com" ]} ]).
  eexists. split; [right; left|]. eexists. reflexivity.
Defined.

(** *** The errors of ProcessMessage *)

Lemma ProcessMessage_with_errors handle env msg w e :
  (ProcessMessage_with handle env msg w).1 = Err e ->
  isRetryableError (Some e) = false
  /\ ((exists w0, llm_GenerateResponse env w0 msg = Err e)
      \/ (exists cause,
            e = BridgeError "process_message" "failed after retry attempts" (Some cause)
            /\ isRetryableError (Some cause) = true)
      \/ (exists cause, e = BridgeError "handle_tools" "tool execution failed" (Some cause))).
Proof.
  unfold ProcessMessage_with, bind.
  pose proof (retry_loop_3 env msg w) as Hloop. cbv zeta in Hloop. rewrite Hloop. clear Hloop.
  assert (Hresp : forall response w1,
            (process_response handle response w1).1 = Err e ->
            isRetryableError (Some e) = false
            /\ ((exists w0, llm_GenerateResponse env w0 msg = Err e)
                \/ (exists cause,
                      e = BridgeError "process_message" "failed after retry attempts"
                            (Some cause)
                      /\ isRetryableError (Some cause) = true)
                \/ (exists cause,
                      e = BridgeError "handle_tools" "tool execution failed" (Some cause)))).
  { intros response w1. unfold process_response.
    destruct (ToolCalls response) as [|call calls]; [discriminate|].
    unfold bind. destruct (handle (call :: calls) [] w1) as [[[|first rest]|err] w2];
      try discriminate.
    intros H. inversion H; subst e. split; [reflexivity|]. right. right. eauto. }
  destruct (llm_GenerateResponse env w msg) as [r1|e1] eqn:G1; [apply Hresp|].
  destruct (isRetryableError (Some e1)) eqn:R1;
    [|intros H; inversion H; subst e; split; [exact R1 | left; eauto]].
  destruct (llm_GenerateResponse env (retried msg Second w) msg) as [r2|e2] eqn:G2;
    [apply Hresp|].
  destruct (isRetryableError (Some e2)) eqn:R2;
    [|intros H; inversion H; subst e; split; [exact R2 | left; eauto]].
  destruct (llm_GenerateResponse env (retried msg (2 * Second) (retried msg Second w)) msg)
    as [r3|e3] eqn:G3; [apply Hresp|].
  destruct (isRetryableError (Some e3)) eqn:R3;
    [|intros H; inversion H; subst e; split; [exact R3 | left; eauto]].
  intros H. inversion H; subst e. split; [reflexivity|]. right. left. eauto.
Qed.

(** X11: an error returned by ProcessMessage is of one of three kinds:
    the error of the model endpoint as it came, not wrapped, when it is
    not transient; a BridgeError of the operation [process_message]
    around a transient error, after three attempts; a BridgeError of the
    operation [handle_tools] around the error of the dispatch.  None of
    them is retryable for isRetryableError, a BridgeError hiding its
    cause behind its own Unwrap.  This holds for the multi-server
    orchestrator and for the bridge.go without providers. *)
Theorem ProcessMessage_errors (env : Env) (b : Bridge) (msg : string) (w : World) (e : error) :
  (ProcessMessage env b msg w).1 = Err e \/ (ProcessMessage_db env b msg w).1 = Err e ->
  isRetryableError (Some e) = false
  /\ ((exists w0, llm_GenerateResponse env w0 msg = Err e)
      \/ (exists cause,
            e = BridgeError "process_message" "failed after retry attempts" (Some cause)
            /\ isRetryableError (Some cause) = true)
      \/ (exists cause, e = BridgeError "handle_tools" "tool execution failed" (Some cause))).
Proof.
  intros [H|H]; exact (ProcessMessage_with_errors _ env msg w e H).
Qed.

(** An endpoint that answers 500: the caller gets that error, which is
    no BridgeError. *)
Lemma ProcessMessage_errors_witness :
  let env := fixtures.env_of (fun _ _ => Err fixtures.status_error) fixtures.no_continue in
  (ProcessMessage env (fixtures.bridge_of fixtures.example_db) "hi" world0).1
  = Err (errorString "unexpected status code: 500, body: ")
  /\ isRetryableError (Some fixtures.status_error) = false.
Proof.
  cbv zeta. split; [reflexivity|].
  apply (ProcessMessage_errors
           (fixtures.env_of (fun _ _ => Err fixtures.status_error) fixtures.no_continue)
           (fixtures.bridge_of fixtures.example_db) "hi" world0 fixtures.status_error).
  left. reflexivity.
Defined.

(** *** What a sanitised name is made of *)

Lemma Index_byte_cons c s p :
  strings.Index (String c s) (String p "") =
  if Stdlib.Strings.Ascii.eqb c p then Some O else S <$> strings.Index s (String p "").
Proof.
  change (strings.Index (String c s) (String p ""))
    with (if strings.HasPrefix (String c s) (String p "") then Some O
          else S <$> strings.Index s (String p "")).
  cbn [strings.HasPrefix]. destruct (Stdlib.Strings.Ascii.eqb c p); [|reflexivity].
  destruct s; reflexivity.
Qed.

Lemma Index_byte_app a t p :
  strings.Index a (String p "") = None ->
  strings.Index t (String p "") = None ->
  strings.Index (a +:+ t) (String p "") = None.
Proof.
  intros Ha Ht. induction a as [|c a IH]; [exact Ht|].
  change (String c a +:+ t) with (String c (a +:+ t)).
  rewrite Index_byte_cons in *. destruct (Stdlib.Strings.Ascii.eqb c p); [discriminate|].
  destruct (strings.Index a (String p "")); [discriminate|].
  rewrite IH; reflexivity.
Qed.

Lemma mkByte_neq z p :
  0 <= z < 256 -> z <> utf8.byteZ p -> Stdlib.Strings.Ascii.eqb (utf8.mkByte z) p = false.
Proof.
  intros Hz Hne. apply Stdlib.Strings.Ascii.eqb_neq. intros <-.
  apply Hne. unfold utf8.byteZ, utf8.mkByte.
  rewrite N_ascii_embedding by lia. lia.
Qed.

(** The encoding of a rune holds an ASCII byte only when the rune is
    that byte. *)
Lemma EncodeRune_byte r p :
  utf8.byteZ p < 128 -> r <> utf8.byteZ p ->
  strings.Index (utf8.EncodeRune r) (String p "") = None.
Proof.
  intros Hp Hr.
  unfold utf8.EncodeRune, utf8.ValidRune, utf8.between, utf8.MaxRune.
  repeat match goal with
    | |- context [Z.leb ?a ?b] => destruct (Z.leb_spec a b)
    end; cbn [andb orb negb];
    rewrite ?Index_byte_cons;
    rewrite ?mkByte_neq by (Z.to_euclidean_division_equations; lia);
    try reflexivity; exfalso; lia.
Qed.

Lemma sanitize_piece_byte r p :
  utf8.byteZ p = 45 \/ utf8.byteZ p = 32 ->
  strings.Index (sanitize_piece r) (String p "") = None.
Proof.
  intros Hp. unfold sanitize_piece, sanitize_step.
  destruct (Z.eqb_spec r 45) as [->|H45]; cbn [orb].
  - change ("" +:+ "_") with (String (utf8.mkByte 95) "").
    rewrite Index_byte_cons, mkByte_neq by lia. reflexivity.
  - destruct (Z.eqb_spec r 32) as [->|H32].
    + change ("" +:+ "_") with (String (utf8.mkByte 95) "").
      rewrite Index_byte_cons, mkByte_neq by lia. reflexivity.
    + change ("" +:+ utf8.EncodeRune r) with (utf8.EncodeRune r).
      apply EncodeRune_byte; lia.
Qed.

Lemma sanitize_byte p :
  utf8.byteZ p = 45 \/ utf8.byteZ p = 32 ->
  forall (n : nat) (name : string), (String.length name <= n)%nat ->
  strings.Index (sanitizeToolName name) (String p "") = None.
Proof.
  intros Hp. induction n as [|n IH]; intros name Hlen.
  - destruct name; [reflexivity | cbn in Hlen; lia].
  - destruct name as [|c s]; [reflexivity|].
    rewrite sanitize_unfold. pose proof (decode_sound c s) as Hd.
    destruct (utf8.DecodeRuneInString (String c s)) as [r size]. destruct Hd as [_ Hsz].
    pose proof (string_drop_length size (String c s)) as Hdrop.
    apply Index_byte_app; [apply sanitize_piece_byte; exact Hp|].
    apply IH. cbn [String.length] in *. lia.
Qed.

(** X12: a sanitised name holds neither a hyphen nor a space, whatever
    the bytes of the name, valid UTF-8 or not: what replaces an invalid
    byte is the encoding of U+FFFD. *)
Theorem sanitized_name_has_no_hyphen_or_space (name : string) :
  strings.Contains (sanitizeToolName name) "-" = false
  /\ strings.Contains (sanitizeToolName name) " " = false.
Proof.
  unfold strings.Contains.
  rewrite (sanitize_byte "-" (or_introl eq_refl) (String.length name) name (le_n _)).
  rewrite (sanitize_byte " " (or_intror eq_refl) (String.length name) name (le_n _)).
  split; reflexivity.
Qed.

(** *** Closing the bridge *)

Lemma close_clients_spec client_Close order : forall errs w,
  exists more,
    close_clients client_Close order errs w = (errs ++ more, closed_all order.*2 w)
    /\ (more = [] <->
        forall i name client, order !! i = Some (name, client) ->
          client_Close (closed_all (take i order).*2 w) client = None).
Proof.
  induction order as [|[name client] order IH]; intros errs w.
  - exists []. rewrite app_nil_r. split; [reflexivity|].
    split; [intros _ i ? ? H; destruct i; discriminate | reflexivity].
  - cbn [close_clients].
    destruct (client_Close w client) as [err|] eqn:Hclose.
    + destruct (IH (errs ++ [Errorf_w ("MCP server " +:+ name +:+ ": ") err]) (closed client w))
        as (more & Hrun & _).
      exists (Errorf_w ("MCP server " +:+ name +:+ ": ") err :: more).
      rewrite Hrun, <- app_assoc. split; [reflexivity|].
      split; [discriminate|].
      intros Hall. specialize (Hall O name client eq_refl). cbn in Hall. congruence.
    + destruct (IH errs (closed client w)) as (more & Hrun & Hiff).
      exists more. rewrite Hrun. split; [reflexivity|].
      rewrite Hiff. split.
      * intros Hall [|i] n c Hi; [cbn in Hi; inversion Hi; subst; exact Hclose|].
        exact (Hall i n c Hi).
      * intros Hall i n c Hi. exact (Hall (S i) n c Hi).
Qed.

Lemma close_log_closed_all clients : forall w,
  close_log (closed_all clients w) = close_log w ++ clients.
Proof.
  induction clients as [|client clients IH]; intros w; [now rewrite app_nil_r|].
  change (closed_all (client :: clients) w) with (closed_all clients (closed client w)).
  rewrite IH. cbn [closed close_log]. rewrite <- app_assoc. reflexivity.
Qed.

(** X13: Bridge.Close closes every stored session once, whatever the
    database or an earlier session answered, in whatever order the map
    is visited; it returns nil exactly when the database and every
    session closed without error; and the bridge it leaves answers every
    request with "unknown tool". *)
Theorem Bridge_Close_closes_every_session (db_Close : option error)
    (client_Close : World -> MCPClient -> option error)
    (order : list (string * MCPClient)) (b : Bridge) (w : World) :
  order ≡ₚ map_to_list (serverMap b) ->
  let out := Bridge_Close db_Close client_Close order b w in
  close_log out.2 ≡ₚ close_log w ++ (map_to_list (serverMap b)).*2
  /\ (out.1.1 = None <->
      db_Close = None
      /\ forall i name client, order !! i = Some (name, client) ->
           client_Close (closed_all (take i order).*2 w) client = None)
  /\ (forall env call calls results w0,
        handleToolCalls env out.1.2 (call :: calls) results w0 =
        (Err (errorString ("unknown tool: " +:+ Function_Name call)), w0)).
Proof.
  intros Hperm. cbv zeta. unfold Bridge_Close, bind.
  destruct (close_clients_spec client_Close order
              match db_Close with
              | Some err => [Errorf_w "database tool: " err]
              | None => []
              end w) as (more & Hrun & Hiff).
  rewrite Hrun.
  assert (Hlog : close_log (closed_all order.*2 w)
                 ≡ₚ close_log w ++ (map_to_list (serverMap b)).*2).
  { rewrite close_log_closed_all, Hperm. reflexivity. }
  assert (Hafter : forall env call calls results w0,
            handleToolCalls env (cleared b) (call :: calls) results w0 =
            (Err (errorString ("unknown tool: " +:+ Function_Name call)), w0)).
  { intros. cbn [handleToolCalls cleared toolMap]. rewrite lookup_empty. reflexivity. }
  destruct db_Close as [err|]; cbn [app].
  - split; [exact Hlog|]. split; [|exact Hafter].
    cbn. split; [discriminate | intros [? _]; discriminate].
  - destruct more as [|e more].
    + split; [exact Hlog|]. split; [|exact Hafter].
      cbn. split; [intros _; split; [reflexivity | apply Hiff; reflexivity] | reflexivity].
    + split; [exact Hlog|]. split; [|exact Hafter].
      cbn. split; [discriminate|]. intros [_ Hall]. apply Hiff in Hall. discriminate.
Qed.

(** Two sessions, the first of which fails to close: the second is
    closed all the same. *)
Lemma Bridge_Close_closes_every_session_witness :
  let b := store_client "alpha" 1%nat
             (store_client "beta" 2%nat (New fixtures.example_db [])) in
  let client_Close := fun (_ : World) (client : MCPClient) =>
        if Nat.eqb client 1 then Some (errorString "signal: killed") else None in
  let out := Bridge_Close None client_Close (map_to_list (serverMap b)) b world0 in
  map_to_list (serverMap b) ≡ₚ map_to_list (serverMap b)
  /\ close_log out.2 ≡ₚ [1%nat; 2%nat]
  /\ out.1.1 = Some (errorString
                       "multiple close errors: [MCP server alpha: signal: killed]").
Proof.
  cbv zeta. split; [reflexivity|].
  destruct (Bridge_Close_closes_every_session None
              (fun (_ : World) (client : MCPClient) =>
                 if Nat.eqb client 1 then Some (errorString "signal: killed") else None)
              (map_to_list (serverMap (store_client "alpha" 1%nat
                 (store_client "beta" 2%nat (New fixtures.example_db [])))))
              (store_client "alpha" 1%nat
                 (store_client "beta" 2%nat (New fixtures.example_db [])))
              world0 (reflexivity _)) as (Hlog & _ & _).
  split; [|vm_compute; reflexivity].
  etransitivity; [exact Hlog|]. vm_compute. reflexivity.
Defined.
